(** * Environment name builder (src/node.v22/index.js)

    A shallow embedding of [createEnvironmentNameBuilder] and of the four
    methods of the builder object it returns, with the properties that
    the specification states about them.

    JavaScript objects have identity and the builder is mutated in place
    ([this._context = ...]), so objects live in a store and values refer
    to them by location.  Every operation takes the store and returns the
    store it leaves behind together with a completion: a normal result or
    a thrown exception.

    What the model covers.  Values are the primitive values of the
    language and references to objects; an object is an ordinary object,
    an array or a function, with its own enumerable data properties.
    Prototypes, accessors, proxies and non-enumerable properties are left
    out: the code reads six fixed keys and copies own enumerable
    properties with the spread syntax.  The functions stored in [check]
    are the caller's: they are given by a host, as are the two
    conversions to text that the language does not fix by a simple rule.
    A host function reads the store and returns or throws; it does not
    write to the store.

    The file has four parts: the embedding of the source; the vocabulary
    in which the properties are stated; sample hosts and stores on which
    the definitions are run; the properties and their proofs. *)

From Stdlib Require Import Floats.SpecFloat.
From stdpp Require Import gmap strings list fin_maps pretty.

Open Scope string_scope.
Open Scope list_scope.

(** * The embedding *)

(** ** Values and the object store *)

Abbreviation loc := nat.

(** A JavaScript value.  Numbers are IEEE 754 doubles, kept in the
    structural form of [spec_float]: signed zeros, infinities, NaN, or a
    finite mantissa and exponent. *)
Inductive value : Type :=
  | VUndefined
  | VNull
  | VBool (b : bool)
  | VNumber (x : spec_float)
  | VBigInt (n : Z)
  | VString (s : string)
  | VSymbol (id : nat)
  | VRef (l : loc).

(** What kind of object a store cell holds: an ordinary object, an array
    with its elements, or a function (named by an index into the host's
    table of function bodies). *)
Inductive obj_class : Type :=
  | CObject
  | CArray (items : list value)
  | CFunction (f : nat).

(** An object: its class and its own enumerable data properties.
    Prototypes, accessors and non-enumerable properties are outside the
    model; the code under study reads only the keys [check], [name],
    [message], [conditions], [defaultValue] and [_context]. *)
Record object : Type := Obj { cls : obj_class; props : gmap string value }.

Abbreviation heap := (list object).

Definition empty_object : object := Obj CObject ∅.
Definition empty_array : object := Obj (CArray []) ∅.

(** Allocation appends a cell; the new location is the old length. *)
Definition alloc (h : heap) (o : object) : heap * value :=
  (h ++ [o], VRef (length h)).

(** An exception in flight: a freshly built [Error] or [TypeError] with
    its message, or an arbitrary value given to [throw]. *)
Inductive exn : Type :=
  | JsError (msg : string)
  | JsTypeError (msg : string)
  | Thrown (v : value).

Inductive completion (A : Type) : Type :=
  | Normal (a : A)
  | Throw (e : exn).
Arguments Normal {A} a.
Arguments Throw {A} e.

#[global] Instance completion_ret : MRet completion := @Normal.
#[global] Instance completion_bind : MBind completion :=
  fun A B k c => match c with Normal a => k a | Throw e => Throw e end.

(** ** Primitive operations of the language *)

Definition class_of (h : heap) (v : value) : option obj_class :=
  match v with
  | VRef l => cls <$> h !! l
  | _ => None
  end.

(** [typeof v].  A location that holds nothing does not arise in a
    running program; it is given the type of [undefined]. *)
Definition typeof (h : heap) (v : value) : string :=
  match v with
  | VUndefined => "undefined"
  | VNull => "object"
  | VBool _ => "boolean"
  | VNumber _ => "number"
  | VBigInt _ => "bigint"
  | VString _ => "string"
  | VSymbol _ => "symbol"
  | VRef l =>
      match cls <$> h !! l with
      | Some (CFunction _) => "function"
      | Some _ => "object"
      | None => "undefined"
      end
  end.

(** [!!v], the language's ToBoolean: [undefined], [null], [false], both
    zeros, NaN, the BigInt [0n] and the empty string are false; every
    other value, every object included, is true. *)
Definition truthy (v : value) : bool :=
  match v with
  | VUndefined | VNull => false
  | VBool b => b
  | VNumber (S754_zero _) | VNumber S754_nan => false
  | VNumber _ => true
  | VBigInt n => negb (n =? 0)%Z
  | VString s => negb (String.eqb s "")
  | VSymbol _ | VRef _ => true
  end.

(** [Array.isArray v], and the elements when it holds. *)
Definition array_items (h : heap) (v : value) : option (list value) :=
  match class_of h v with
  | Some (CArray items) => Some items
  | _ => None
  end.

Definition isArray (h : heap) (v : value) : bool :=
  bool_decide (is_Some (array_items h v)).

(** The index properties ["0"], ["1"], ... of an array or a string. *)
Definition index_props (items : list value) : gmap string value :=
  list_to_map (imap (fun i v => (pretty i, v)) items).

Definition string_chars (s : string) : list value :=
  (fun c => VString (String c EmptyString)) <$> String.list_ascii_of_string s.

(** The own enumerable properties of a value: what [{...v}] copies and
    what [k in v] and [v.k] consult.  Primitives other than strings, and
    [null] and [undefined], have none. *)
Definition own_props (h : heap) (v : value) : gmap string value :=
  match v with
  | VString s => index_props (string_chars s)
  | VRef l =>
      match h !! l with
      | Some (Obj (CArray items) ps) => ps ∪ index_props items
      | Some (Obj _ ps) => ps
      | None => ∅
      end
  | _ => ∅
  end.

(** [k in v], for [v] an object. *)
Definition has_property (h : heap) (k : string) (v : value) : bool :=
  bool_decide (is_Some (own_props h v !! k)).

(** [v.k]: a TypeError on [null] and [undefined], the property when it is
    there, [undefined] otherwise. *)
Definition get_prop (h : heap) (v : value) (k : string) : completion value :=
  match v with
  | VUndefined =>
      Throw (JsTypeError
        ("Cannot read properties of undefined (reading '" +:+ k +:+ "')"))
  | VNull =>
      Throw (JsTypeError
        ("Cannot read properties of null (reading '" +:+ k +:+ "')"))
  | _ => Normal (default VUndefined (own_props h v !! k))
  end.

(** [this.k], for the builder at location [this]. *)
Definition this_get (h : heap) (this : loc) (k : string) : value :=
  default VUndefined (own_props h (VRef this) !! k).

(** [this.k = v]. *)
Definition this_set (h : heap) (this : loc) (k : string) (v : value) : heap :=
  alter (fun o => Obj (cls o) (<[k := v]> (props o))) this h.

(** A parameter with a default: [undefined] (an argument left out) takes
    a freshly allocated default object. *)
Definition default_param (h : heap) (arg : value) (dflt : object)
  : heap * value :=
  match arg with
  | VUndefined => alloc h dflt
  | _ => (h, arg)
  end.

(** ** Construction (index.js, lines 14-38) *)

(** The three tests made on [conditions[i]], in the order of the source. *)
Definition check_condition (h : heap) (i : nat) (condition : value)
  : completion unit :=
  if negb (truthy condition)
     || negb (bool_decide (typeof h condition = "object"))
  then Throw (JsError
         ("Condition at index " +:+ pretty i +:+ " must be an object"))
  else if negb (has_property h "check" condition)
  then Throw (JsError
         ("Condition at index " +:+ pretty i
            +:+ " missing required property 'check'"))
  else if negb (has_property h "name" condition)
  then Throw (JsError
         ("Condition at index " +:+ pretty i
            +:+ " missing required property 'name'"))
  else Normal ().

(** The validation loop, from index [i] on. *)
Fixpoint check_conditions (h : heap) (i : nat) (items : list value)
  : completion unit :=
  match items with
  | [] => Normal ()
  | condition :: rest =>
      match check_condition h i condition with
      | Normal _ => check_conditions h (S i) rest
      | Throw e => Throw e
      end
  end.

(** The data properties of the builder object. *)
Definition builder_object (conditions defaultValue context : value) : object :=
  Obj CObject
    (<["conditions" := conditions]>
       (<["defaultValue" := defaultValue]> {["_context" := context]})).

Definition createEnvironmentNameBuilder
    (h : heap) (conditions defaultValue : value) : heap * completion value :=
  let '(h, conditions) := default_param h conditions empty_array in
  let '(h, defaultValue) := default_param h defaultValue empty_array in
  match array_items h conditions with
  | None => (h, Throw (JsError "Conditions must be an array"))
  | Some items =>
      match check_conditions h 0 items with
      | Throw e => (h, Throw e)
      | Normal _ =>
          let '(h, context) := alloc h empty_object in
          let '(h, this) := alloc h (builder_object conditions defaultValue context) in
          (h, Normal this)
      end
  end.

(** ** The methods (index.js, lines 45-108) *)

(** The accumulated context: the own properties of [this._context]. *)
Definition context_of (h : heap) (this : loc) : gmap string value :=
  own_props h (this_get h this "_context").

(** The test [ctx && typeof ctx === 'object' && !Array.isArray(ctx)]. *)
Definition is_plain_object (h : heap) (ctx : value) : bool :=
  truthy ctx && bool_decide (typeof h ctx = "object") && negb (isArray h ctx).

Definition withContext (h : heap) (this : loc) (ctx : value)
  : heap * completion value :=
  let '(h, ctx) := default_param h ctx empty_object in
  if is_plain_object h ctx then
    let '(h, merged) :=
      alloc h (Obj CObject (own_props h ctx ∪ context_of h this)) in
    (this_set h this "_context" merged, Normal (VRef this))
  else (h, Normal (VRef this)).

Definition resetContext (h : heap) (this : loc) : heap * completion value :=
  let '(h, fresh) := alloc h empty_object in
  (this_set h this "_context" fresh, Normal (VRef this)).

Definition getContext (h : heap) (this : loc) : heap * completion value :=
  let '(h, copy) := alloc h (Obj CObject (context_of h this)) in
  (h, Normal copy).

(** ** The host: what the program takes from its surroundings

    The bodies of the functions stored in [check] belong to the caller.
    [call f h this arg] runs function [f] on the store [h] with receiver
    [this] and argument [arg]; it returns or throws, and (being a
    predicate) leaves the store as it found it.  The two conversions to
    text that a template literal may need beyond the primitive cases,
    the decimal form of a double and the [toString] of an object, are
    the engine's. *)
Class Host : Type := {
  call : nat → heap → value → value → completion value;
  number_to_string : spec_float → string;
  object_to_string : heap → loc → completion string;
}.

(** What [evaluate] hands back: the array of [[true, name]] pairs it has
    just built, or the stored default value itself. *)
Inductive outcome : Type :=
  | Matches (ms : list (bool * value))
  | Fallback (v : value).

Section Evaluate.
Context `{Host}.

(** The string a template literal substitutes for [v]. *)
Definition ToString (h : heap) (v : value) : completion string :=
  match v with
  | VUndefined => Normal "undefined"
  | VNull => Normal "null"
  | VBool true => Normal "true"
  | VBool false => Normal "false"
  | VNumber x => Normal (number_to_string x)
  | VBigInt n => Normal (pretty n)
  | VString s => Normal s
  | VSymbol _ =>
      Throw (JsTypeError "Cannot convert a Symbol value to a string")
  | VRef l => object_to_string h l
  end.

(** [error.message] in the [catch] clause. *)
Definition exn_message (h : heap) (error : exn) : completion value :=
  match error with
  | JsError msg | JsTypeError msg => Normal (VString msg)
  | Thrown v => get_prop h v "message"
  end.

(** [check(ctx)] for a [check] whose [typeof] is ['function']. *)
Definition call_function (h : heap) (fn this arg : value)
  : completion value :=
  match class_of h fn with
  | Some (CFunction f) => call f h this arg
  | _ => Throw (JsTypeError "condition.check is not a function")
  end.

(** The error built at lines 85-87. *)
Definition evaluation_error (h : heap) (condition : value) (error : exn)
  : completion bool :=
  name ← get_prop h condition "name";
  shown_name ← ToString h name;
  message ← exn_message h error;
  shown_message ← ToString h message;
  Throw (JsError ("Error evaluating condition '" +:+ shown_name
                    +:+ "': " +:+ shown_message)).

(** Lines 78-92: the boolean [result] of one condition. *)
Definition condition_result (h : heap) (ctx condition : value)
  : completion bool :=
  check ← get_prop h condition "check";
  if bool_decide (typeof h check = "function") then
    match call_function h check condition ctx with
    | Normal returned => Normal (truthy returned)
    | Throw error => evaluation_error h condition error
    end
  else Normal (truthy check).

(** The loop of lines 77-97, [matches] being the array built so far. *)
Fixpoint evaluate_conditions (h : heap) (ctx : value)
    (conditions : list value) (matches : list (bool * value))
  : completion (list (bool * value)) :=
  match conditions with
  | [] => Normal matches
  | condition :: rest =>
      result ← condition_result h ctx condition;
      if result : bool then
        name ← get_prop h condition "name";
        evaluate_conditions h ctx rest (matches ++ [(true, name)])
      else evaluate_conditions h ctx rest matches
  end.

(** Lines 68-72: [{ env: process.env, ...this._context, ...runtimeContext }].
    A later layer wins, and [∪] prefers its left operand. *)
Definition effective_context (h : heap) (process_env : value) (this : loc)
    (runtimeContext : value) : gmap string value :=
  own_props h runtimeContext
    ∪ (context_of h this ∪ {["env" := process_env]}).

Definition evaluate (h : heap) (process_env : value) (this : loc)
    (runtimeContext : value) : heap * completion outcome :=
  let '(h, runtimeContext) := default_param h runtimeContext empty_object in
  let '(h, ctx) :=
    alloc h (Obj CObject (effective_context h process_env this runtimeContext)) in
  match array_items h (this_get h this "conditions") with
  | None => (h, Throw (JsTypeError "this.conditions is not iterable"))
  | Some conditions =>
      (h, matches ← evaluate_conditions h ctx conditions [];
          mret (match matches with
                | [] => Fallback (this_get h this "defaultValue")
                | _ :: _ => Matches matches
                end))
  end.

End Evaluate.

(** * Vocabulary of the statements *)

(** ** Construction *)

(** The store in which the body of [createEnvironmentNameBuilder] runs,
    and the values bound to its two parameters there, once the defaults
    of line 14 have been applied. *)
Definition entry_heap (h : heap) (conditions defaultValue : value) : heap :=
  (default_param (default_param h conditions empty_array).1
     defaultValue empty_array).1.

Definition conditions_param (h : heap) (conditions : value) : value :=
  (default_param h conditions empty_array).2.

Definition defaultValue_param (h : heap) (conditions defaultValue : value)
  : value :=
  (default_param (default_param h conditions empty_array).1
     defaultValue empty_array).2.

(** The test of line 23, read positively: [condition] is not falsy and
    its [typeof] is ['object']. *)
Definition is_object (h : heap) (condition : value) : bool :=
  truthy condition && bool_decide (typeof h condition = "object").

(** A condition that passes all three tests: an object on which both
    [check] and [name] are present, whatever their values. *)
Definition accepted (h : heap) (condition : value) : Prop :=
  is_object h condition = true
  ∧ is_Some (own_props h condition !! "check")
  ∧ is_Some (own_props h condition !! "name").

(** [{ check: check, name: name }] *)
Definition condition_object (check name : value) : object :=
  Obj CObject (<["check" := check]> {["name" := name]}).

(** A structured record in the sense of the specification: an object
    that is neither an array nor a function.  Booleans, strings, arrays
    and [null] are not records. *)
Definition is_record (h : heap) (v : value) : bool :=
  match class_of h v with
  | Some CObject => true
  | _ => false
  end.

(** The message of line 24 for index [i]. *)
Definition must_be_an_object (i : nat) : exn :=
  JsError ("Condition at index " +:+ pretty i +:+ " must be an object").

(** The messages of lines 27 and 30 for index [i] and property [k]. *)
Definition missing_property (i : nat) (k : string) : exn :=
  JsError ("Condition at index " +:+ pretty i
             +:+ " missing required property '" +:+ k +:+ "'").

(** ** Evaluation *)

(** The store in which the body of [evaluate] runs and the value bound to
    [runtimeContext] there, once the default of line 66 has been applied;
    the store after line 72, with the context object added; and the
    reference to that object, bound to [ctx]. *)
Definition evaluate_heap (h : heap) (runtimeContext : value) : heap :=
  (default_param h runtimeContext empty_object).1.

Definition runtime_param (h : heap) (runtimeContext : value) : value :=
  (default_param h runtimeContext empty_object).2.

Definition context_ref (h : heap) (runtimeContext : value) : value :=
  VRef (length (evaluate_heap h runtimeContext)).

(** Truthiness as the specification lists it: zero, the empty string,
    [null], [undefined] and [false] are false, everything else is true.
    Zero is taken in the widest sense: either sign, and the BigInt zero. *)
Definition listed_truthy (v : value) : bool :=
  match v with
  | VUndefined | VNull => false
  | VBool b => b
  | VNumber (S754_zero _) => false
  | VBigInt n => negb (n =? 0)%Z
  | VString s => negb (String.eqb s "")
  | _ => true
  end.

Section EvaluateVocabulary.
Context `{Host}.

Definition context_heap (h : heap) (process_env : value) (this : loc)
    (runtimeContext : value) : heap :=
  let h1 := evaluate_heap h runtimeContext in
  h1 ++ [Obj CObject
           (effective_context h1 process_env this
              (runtime_param h runtimeContext))].

(** The check of a condition: what the predicate returns if [check] is
    callable, the static value otherwise. *)
Definition check_value (h : heap) (ctx condition : value)
  : completion value :=
  check ← get_prop h condition "check";
  if bool_decide (typeof h check = "function")
  then call_function h check condition ctx
  else Normal check.

(** The check of [condition] yields a value: its predicate, if it has
    one, returns. *)
Definition returns (h : heap) (ctx condition : value) : Prop :=
  ∃ v, check_value h ctx condition = Normal v.

(** The check of [condition] coerces to true under [coerce]. *)
Definition holds_by (coerce : value → bool) (h : heap)
    (ctx condition : value) : bool :=
  match check_value h ctx condition with
  | Normal v => coerce v
  | Throw _ => false
  end.

Definition name_of (h : heap) (condition : value) : value :=
  default VUndefined (own_props h condition !! "name").

(** One [(true, name)] pair for each condition whose check coerces to
    true, in the order of the condition list. *)
Definition matching_by (coerce : value → bool) (h : heap) (ctx : value)
    (conditions : list value) : list (bool * value) :=
  (fun condition => (true, name_of h condition))
    <$> List.filter (holds_by coerce h ctx) conditions.

(** That sequence, or the stored default value when it is empty. *)
Definition outcome_by (coerce : value → bool) (h : heap) (this : loc)
    (ctx : value) (conditions : list value) : outcome :=
  let matches := matching_by coerce h ctx conditions in
  match matches with
  | [] => Fallback (this_get h this "defaultValue")
  | _ :: _ => Matches matches
  end.

End EvaluateVocabulary.


(** ** The state of a builder *)

(** A value refers into the store: it is a primitive, or the location it
    names holds an object. *)
Definition in_store (h : heap) (v : value) : Prop :=
  match v with
  | VRef l => l < length h
  | _ => True
  end.

(** There is a builder at [this]: an object with the three data
    properties set up at lines 36-38, whose [_context] names an object
    of the store and whose [conditions] refers into the store. *)
Definition builder_at (h : heap) (this : loc) : Prop :=
  ∃ conditions defaultValue context,
    h !! this = Some (builder_object conditions defaultValue (VRef context))
    ∧ context < length h
    ∧ in_store h conditions.

(** ** The operations of a builder, as data *)

Inductive operation : Type :=
  | OpWithContext (ctx : value)
  | OpResetContext
  | OpGetContext
  | OpEvaluate (process_env runtimeContext : value).

(** The store an operation leaves behind. *)
Definition perform `{Host} (h : heap) (this : loc) (op : operation) : heap :=
  match op with
  | OpWithContext ctx => (withContext h this ctx).1
  | OpResetContext => (resetContext h this).1
  | OpGetContext => (getContext h this).1
  | OpEvaluate process_env runtimeContext =>
      (evaluate h process_env this runtimeContext).1
  end.

(** What an operation may do to the accumulated context [before], leaving
    [after]: only [resetContext] empties it; [withContext] keeps every
    key; the other two keep it as it is. *)
Definition context_step (op : operation) (before after : gmap string value)
  : Prop :=
  match op with
  | OpResetContext => after = ∅
  | OpWithContext _ => dom before ⊆ dom after
  | OpGetContext | OpEvaluate _ _ => after = before
  end.

(** The arguments of an operation refer into the store [h]. *)
Definition operation_in_store (h : heap) (op : operation) : Prop :=
  match op with
  | OpWithContext ctx => in_store h ctx
  | OpResetContext | OpGetContext => True
  | OpEvaluate process_env runtimeContext =>
      in_store h process_env ∧ in_store h runtimeContext
  end.

(** A sequence of operations, one after the other. *)
Definition perform_all `{Host} (h : heap) (this : loc) (ops : list operation)
  : heap :=
  foldl (fun h op => perform h this op) h ops.

(** Method chaining, [builder.next(...)]: the next method runs on the
    builder that the previous call returned, in the store it left; an
    exception ends the chain. *)
Definition chain {A} (r : heap * completion value)
    (next : heap → loc → heap * completion A) : heap * completion A :=
  match r with
  | (h, Normal (VRef this)) => next h this
  | (h, Normal _) => (h, Throw (JsTypeError "not a builder"))
  | (h, Throw e) => (h, Throw e)
  end.

(** ** Looking at a builder from outside *)

(** The two calls that only look: [getContext()] and [evaluate(rc)]. *)
Inductive query : Type :=
  | QGetContext
  | QEvaluate (process_env runtimeContext : value).

(** What the caller sees of such a call: the mapping that [getContext]
    returned, or the completion of [evaluate]. *)
Inductive observation : Type :=
  | SeenContext (mapping : gmap string value)
  | SeenOutcome (result : completion outcome).

Definition observe `{Host} (h : heap) (this : loc) (q : query)
  : heap * observation :=
  match q with
  | QGetContext =>
      let r := getContext h this in
      (r.1, SeenContext
              (match r.2 with
               | Normal copy => own_props r.1 copy
               | Throw _ => ∅
               end))
  | QEvaluate process_env runtimeContext =>
      let r := evaluate h process_env this runtimeContext in
      (r.1, SeenOutcome r.2)
  end.

(** A sequence of such calls, each on the store the previous one left. *)
Fixpoint observe_all `{Host} (h : heap) (this : loc) (qs : list query)
  : list observation :=
  match qs with
  | [] => []
  | q :: rest =>
      let r := observe h this q in
      r.2 :: observe_all r.1 this rest
  end.

(** The arguments of a query refer into the store [h]. *)
Definition query_in_store (h : heap) (q : query) : Prop :=
  match q with
  | QGetContext => True
  | QEvaluate process_env runtimeContext =>
      in_store h process_env ∧ in_store h runtimeContext
  end.

(** ** Closed stores, reachability, and hosts whose functions read only
    what they are given *)

(** A store is closed when every value kept in one of its objects, as a
    property or as an array element, refers into the store.  A running
    program only ever has closed stores: a reference is obtained from an
    allocation. *)
Definition closed_object (h : heap) (o : object) : Prop :=
  map_Forall (fun _ v => in_store h v) (props o)
  ∧ match cls o with
    | CArray items => Forall (in_store h) items
    | _ => True
    end.

Definition closed (h : heap) : Prop := Forall (closed_object h) h.

#[global] Instance in_store_dec h v : Decision (in_store h v).
Proof. destruct v; simpl; apply _. Defined.

#[global] Instance closed_object_dec h o : Decision (closed_object h o).
Proof.
  unfold closed_object. destruct (cls o); apply _.
Defined.

#[global] Instance closed_dec h : Decision (closed h).
Proof. unfold closed. apply _. Defined.

(** [reach h v l]: location [l] can be reached from the value [v] by
    following properties and array elements in [h]. *)
Inductive reach (h : heap) : value → loc → Prop :=
  | reach_here l : reach h (VRef l) l
  | reach_property l o k v l' :
      h !! l = Some o → props o !! k = Some v → reach h v l' →
      reach h (VRef l) l'
  | reach_element l o items v l' :
      h !! l = Some o → cls o = CArray items → v ∈ items → reach h v l' →
      reach h (VRef l) l'.

(** Two stores hold the same objects at every location reachable from [v]. *)
Definition agree_from (h h' : heap) (v : value) : Prop :=
  ∀ l, reach h v l → h' !! l = h !! l.

(** The functions of a host are local when they read the store only
    through their receiver and their argument: on two stores that agree
    on what is reachable from those, a call behaves the same; a value it
    throws refers only to what was reachable; and the text of an object
    depends only on what is reachable from the object.  This is what it
    means, in a model where functions are given by the host, for a
    predicate to be a function of the context it is handed. *)
Class LocalHost `{Host} : Prop := {
  call_local f h h' this arg :
    agree_from h h' this → agree_from h h' arg →
    call f h' this arg = call f h this arg;
  call_thrown_local f h this arg v l :
    call f h this arg = Throw (Thrown v) →
    reach h v l → reach h this l ∨ reach h arg l;
  object_to_string_local h h' l :
    agree_from h h' (VRef l) →
    object_to_string h' l = object_to_string h l;
}.

(** ** Two readings of the specification that the code does not meet *)

(** The reading of the rule "every element that is not a non-null
    structured record is refused as not being an object": whenever the
    elements before index [length pre] pass and the element there is not
    a record, construction throws [must_be_an_object]. *)
Definition rejects_every_non_record : Prop :=
  ∀ (h : heap) (conditions defaultValue : value) (pre : list value)
    (condition : value) (post : list value),
    let h1 := entry_heap h conditions defaultValue in
    array_items h1 (conditions_param h conditions)
      = Some (pre ++ condition :: post) →
    Forall (accepted h1) pre →
    is_record h1 condition = false →
    (createEnvironmentNameBuilder h conditions defaultValue).2
      = Throw (must_be_an_object (length pre)).

(** The reading of the rule "evaluate reports the conditions whose check
    is true, where 0, the empty string, null, undefined and false are
    false and everything else is true": for every host, whenever
    [this.conditions] is the array [conditions] and every check yields a
    value, [evaluate] returns [outcome_by listed_truthy]. *)
Definition reports_by_listed_truthiness : Prop :=
  ∀ (host : Host) (h : heap) (process_env : value) (this : loc)
    (runtimeContext : value) (conditions : list value),
    let h2 := context_heap h process_env this runtimeContext in
    let ctx := context_ref h runtimeContext in
    array_items h2 (this_get h2 this "conditions") = Some conditions →
    Forall (returns h2 ctx) conditions →
    (evaluate h process_env this runtimeContext).2
      = Normal (outcome_by listed_truthy h2 this ctx conditions).

(** ** Two further readings that the code does not meet *)

(** The reading of the rule "a key set in the environment-variable
    layer, the accumulated context and the runtime context resolves to
    the runtime value; without the runtime entry, to the accumulated
    value; without both, to the value from the environment layer", the
    environment-variable layer being the variables that [process.env]
    holds: for every key [k] that [process.env] sets to [ve], the
    context object has under [k] the runtime value, else the accumulated
    value, else [ve]. *)
Definition resolves_variables_by_layer : Prop :=
  ∀ (host : Host) (h : heap) (process_env : value) (this : loc)
    (runtimeContext : value) (k : string) (ve : value),
    let h1 := evaluate_heap h runtimeContext in
    let accumulated := context_of h1 this in
    let runtime := own_props h1 (runtime_param h runtimeContext) in
    let effective :=
      own_props (evaluate h process_env this runtimeContext).1
        (context_ref h runtimeContext) in
    own_props h1 process_env !! k = Some ve →
    (∀ va vr,
       accumulated !! k = Some va → runtime !! k = Some vr →
       effective !! k = Some vr)
    ∧ (∀ va,
         accumulated !! k = Some va → runtime !! k = None →
         effective !! k = Some va)
    ∧ (accumulated !! k = None → runtime !! k = None →
       effective !! k = Some ve).


(** ** Static conditions and repeated merging *)

(** A condition whose [check] is a static value: the property is there,
    refers into the store, and is not a function. *)
Definition static_check (h : heap) (condition : value) : Prop :=
  ∃ check,
    own_props h condition !! "check" = Some check
    ∧ in_store h check
    ∧ typeof h check ≠ "function".

(** [!!condition.check], read from the store alone. *)
Definition static_holds (h : heap) (condition : value) : bool :=
  truthy (default VUndefined (own_props h condition !! "check")).

(** What a list of static conditions evaluates to: it depends on the
    conditions and the default value only. *)
Definition static_outcome (h : heap) (this : loc) (conditions : list value)
  : outcome :=
  let matches :=
    (fun condition =>
       (true, default VUndefined (own_props h condition !! "name")))
      <$> List.filter (static_holds h) conditions in
  match matches with
  | [] => Fallback (this_get h this "defaultValue")
  | _ :: _ => Matches matches
  end.

(** The accumulated context after merging [records] one after the other
    on top of [base]: each record goes in front of what came before. *)
Definition merged_over (h : heap) (base : gmap string value)
    (records : list value) : gmap string value :=
  foldl (fun accumulated record => own_props h record ∪ accumulated)
    base records.

(** A record of the store other than the builder itself. *)
Definition record_beside (h : heap) (this : loc) (record : value) : Prop :=
  is_record h record = true ∧ record ≠ VRef this.

(** A primitive value that is neither [null] nor [undefined] nor a
    string: property reads on it give [undefined]. *)
Definition plain_primitive (v : value) : bool :=
  match v with
  | VBool _ | VNumber _ | VBigInt _ | VSymbol _ => true
  | _ => false
  end.

(** ** Two builders side by side *)

(** Two builders of one store that are different objects, neither being
    the context object of the other. *)
Definition separate_builders (h : heap) (a b : loc) : Prop :=
  builder_at h a ∧ builder_at h b ∧ a ≠ b
  ∧ this_get h a "_context" ≠ VRef b
  ∧ this_get h b "_context" ≠ VRef a.

(** * Sample data *)

(** ** A sample host

    Five function bodies, in the style of the package's tests, used to run
    the definitions on concrete inputs:
    - 0: [() => true]
    - 1: [(ctx) => ctx.tier === 'premium']
    - 2: [() => { throw new Error('Test error') }]
    - 3: [() => { throw null }]
    - 4: [(ctx) => ctx.env.NODE_ENV === 'production']
    The two conversions to text cover what the examples print: whole
    numbers and ordinary objects. *)

#[global] Instance spec_float_eq_dec : EqDecision spec_float.
Proof. solve_decision. Defined.
#[global] Instance value_eq_dec : EqDecision value.
Proof. solve_decision. Defined.

Definition sample_call (f : nat) (h : heap) (this arg : value)
  : completion value :=
  match f with
  | 0 => Normal (VBool true)
  | 1 =>
      tier ← get_prop h arg "tier";
      Normal (VBool (bool_decide (tier = VString "premium")))
  | 2 => Throw (JsError "Test error")
  | 3 => Throw (Thrown VNull)
  | 4 =>
      env ← get_prop h arg "env";
      mode ← get_prop h env "NODE_ENV";
      Normal (VBool (bool_decide (mode = VString "production")))
  | _ => Normal VUndefined
  end.

Definition sample_number_to_string (x : spec_float) : string :=
  match x with
  | S754_zero _ => "0"
  | S754_nan => "NaN"
  | S754_infinity false => "Infinity"
  | S754_infinity true => "-Infinity"
  | S754_finite s m e =>
      (if s then "-" else "") +:+ pretty (Z.pos m * 2 ^ e)%Z
  end.

Definition sample_host : Host := {|
  call := sample_call;
  number_to_string := sample_number_to_string;
  object_to_string := fun _ _ => Normal "[object Object]";
|}.

(** ** Sample stores *)

(** Stores for the examples about construction.  [construction_store]
    holds, from location 0: [{check: false, name: 'off'}],
    [{check: 0, name: 'zero'}], [{check: '', name: 'empty'}],
    [{name: 'only-name'}], [{check: true}], an empty array, and then the
    candidate [conditions] arguments
    - 6: [[c0, c1, c2]], all three accepted,
    - 7: [[c0, {name: 'only-name'}, true]],
    - 8: [[c0, c1, {check: true}]],
    - 9: [[c0, true, {name: 'only-name'}]],
    - 10: [[c0, []]], whose second element is an array. *)
Definition construction_store : heap :=
  [ condition_object (VBool false) (VString "off");
    condition_object (VNumber (S754_zero false)) (VString "zero");
    condition_object (VString "") (VString "empty");
    Obj CObject {["name" := VString "only-name"]};
    Obj CObject {["check" := VBool true]};
    Obj (CArray []) ∅;
    Obj (CArray [VRef 0; VRef 1; VRef 2]) ∅;
    Obj (CArray [VRef 0; VRef 3; VBool true]) ∅;
    Obj (CArray [VRef 0; VRef 1; VRef 4]) ∅;
    Obj (CArray [VRef 0; VBool true; VRef 3]) ∅;
    Obj (CArray [VRef 0; VRef 5]) ∅ ].

(** Stores for the examples about evaluation.  [evaluation_store] holds,
    from location 0:
    - 0-2: [{check: true, name: 'first'}], [{check: false, name: 'second'}],
      [{check: f1, name: 'third'}] with [f1] at 3;
    - 4: the array of these three and 5: a builder on it, with default
      value ['fallback'] and accumulated context 6, [{tier: 'basic', env: 'mine'}];
    - 7: [{tier: 'premium'}], a runtime context;
    - 8: [{NODE_ENV: 'production'}], standing for [process.env];
    - 9: [{check: NaN, name: 'nan'}], 10: the array holding it alone and
      11: a builder on it, with context 12, empty;
    - 13: [{check: f2, name: 'boom'}] with [f2] at 14, which throws;
      15: the array [[c0, c13, c1]] and 16: a builder on it (context 12);
    - 17: [{env: 'theirs'}], a runtime context with its own [env]. *)
Definition evaluation_store : heap :=
  [ condition_object (VBool true) (VString "first");
    condition_object (VBool false) (VString "second");
    condition_object (VRef 3) (VString "third");
    Obj (CFunction 1) ∅;
    Obj (CArray [VRef 0; VRef 1; VRef 2]) ∅;
    builder_object (VRef 4) (VString "fallback") (VRef 6);
    Obj CObject (<["tier" := VString "basic"]> {["env" := VString "mine"]});
    Obj CObject {["tier" := VString "premium"]};
    Obj CObject {["NODE_ENV" := VString "production"]};
    condition_object (VNumber S754_nan) (VString "nan");
    Obj (CArray [VRef 9]) ∅;
    builder_object (VRef 10) (VString "fallback") (VRef 12);
    empty_object;
    condition_object (VRef 14) (VString "boom");
    Obj (CFunction 2) ∅;
    Obj (CArray [VRef 0; VRef 13; VRef 1]) ∅;
    builder_object (VRef 15) (VString "fallback") (VRef 12);
    Obj CObject {["env" := VString "theirs"]} ].

(** The context object built by [evaluate] on the sample store, for the
    builder at [this] and the runtime context [runtimeContext]. *)
Definition sample_effective (this : loc) (runtimeContext : value)
  : gmap string value :=
  own_props
    (evaluate (H := sample_host) evaluation_store (VRef 8) this
       runtimeContext).1
    (context_ref evaluation_store runtimeContext).

(** The store of the scenarios listed with the package's tests:
    - 0, 1: [{check: true, name: 'a'}], [{check: false, name: 'b'}] and
      2: the array of the two;
    - 3: an empty array and 4: a record, used as default value;
    - 5: [{check: f, name: 'p'}] with [f] the function at 6, whose body
      is [(ctx) => ctx.tier === 'premium'], and 7: the array holding it;
    - 8: [{tier: 'basic'}] and 9: [{tier: 'premium'}];
    - 10: [{check: g, name: 'x'}] with [g] the function at 11, which
      throws [new Error('Test error')], and 12: the array holding it;
    - 13: [{name: 'only-name'}] and 14: the array holding it;
    - 15, 16: two objects [{check: true, name: 'd'}] and 17: the array of
      the two;
    - 18: an empty object, standing for [process.env]. *)
Definition scenario_store : heap :=
  [ condition_object (VBool true) (VString "a");
    condition_object (VBool false) (VString "b");
    Obj (CArray [VRef 0; VRef 1]) ∅;
    Obj (CArray []) ∅;
    Obj CObject {["default" := VBool true]};
    condition_object (VRef 6) (VString "p");
    Obj (CFunction 1) ∅;
    Obj (CArray [VRef 5]) ∅;
    Obj CObject {["tier" := VString "basic"]};
    Obj CObject {["tier" := VString "premium"]};
    condition_object (VRef 11) (VString "x");
    Obj (CFunction 2) ∅;
    Obj (CArray [VRef 10]) ∅;
    Obj CObject {["name" := VString "only-name"]};
    Obj (CArray [VRef 13]) ∅;
    condition_object (VBool true) (VString "d");
    condition_object (VBool true) (VString "d");
    Obj (CArray [VRef 15; VRef 16]) ∅;
    empty_object ].

(** ** Proof automation for the examples *)

(** Discharge, by running the definitions, the side conditions that the
    examples on the sample stores leave: [Forall accepted], [Forall
    returns] and single lookups. *)
(** A store in which condition arrays were changed after the builders
    on them had been constructed, and conditions whose failure cannot be
    reported:
    - 0: [{check: true, name: 'a'}];
    - 1: the array [[c0, null]], 2: a builder on it (context 3);
    - 4: the array [[c0, true, c0]], 5: a builder on it (context 6);
    - 7: a function that throws [null], 8: [{check: f7, name: 'n'}],
      9: the array [[c0, c8]], 10: a builder on it (context 11);
    - 12: a function that throws an [Error], 13: a condition with that
      check and a Symbol as name, 14: the array holding it, 15: a
      builder on it (context 16);
    - 17: an empty object, standing for [process.env]. *)
Definition altered_store : heap :=
  [ condition_object (VBool true) (VString "a");
    Obj (CArray [VRef 0; VNull]) ∅;
    builder_object (VRef 1) (VString "d") (VRef 3);
    empty_object;
    Obj (CArray [VRef 0; VBool true; VRef 0]) ∅;
    builder_object (VRef 4) (VString "d") (VRef 6);
    empty_object;
    Obj (CFunction 3) ∅;
    condition_object (VRef 7) (VString "n");
    Obj (CArray [VRef 0; VRef 8]) ∅;
    builder_object (VRef 9) (VString "d") (VRef 11);
    empty_object;
    Obj (CFunction 2) ∅;
    condition_object (VRef 12) (VSymbol 0);
    Obj (CArray [VRef 13]) ∅;
    builder_object (VRef 14) (VString "d") (VRef 16);
    empty_object;
    empty_object ].




Ltac accepted_by_computation :=
  repeat constructor; try (eexists; vm_compute; reflexivity);
  try (vm_compute; reflexivity).

Ltac returns_by_computation :=
  repeat constructor; eexists; vm_compute; reflexivity.

Ltac computed := vm_compute; reflexivity.

Ltac lookup_by_computation := computed.

(* ================================================================== *)
(** * Properties *)
(* ================================================================== *)

(** ** Construction *)

Lemma createEnvironmentNameBuilder_unfold h conditions defaultValue :
  createEnvironmentNameBuilder h conditions defaultValue =
  let h1 := entry_heap h conditions defaultValue in
  let cs := conditions_param h conditions in
  let dv := defaultValue_param h conditions defaultValue in
  match array_items h1 cs with
  | None => (h1, Throw (JsError "Conditions must be an array"))
  | Some items =>
      match check_conditions h1 0 items with
      | Throw e => (h1, Throw e)
      | Normal _ =>
          ((h1 ++ [empty_object])
             ++ [builder_object cs dv (VRef (length h1))],
           Normal (VRef (length (h1 ++ [empty_object]))))
      end
  end.
Proof.
  unfold createEnvironmentNameBuilder, entry_heap, conditions_param,
    defaultValue_param.
  destruct (default_param h conditions empty_array) as [h0 cs]; simpl.
  destruct (default_param h0 defaultValue empty_array) as [h1 dv]; simpl.
  destruct (array_items h1 cs) as [items|]; [|done].
  by destruct (check_conditions h1 0 items).
Qed.

Lemma check_condition_accepted h i condition :
  accepted h condition → check_condition h i condition = Normal ().
Proof.
  intros (Hobj & Hcheck & Hname). unfold check_condition.
  unfold is_object in Hobj. apply andb_true_iff in Hobj as [-> ->].
  unfold has_property. rewrite !bool_decide_eq_true_2 by done. reflexivity.
Qed.

Lemma check_conditions_accepted h i items :
  Forall (accepted h) items → check_conditions h i items = Normal ().
Proof.
  intros Hall. revert i.
  induction Hall as [|c rest Hc _ IH]; intros i; simpl; [done|].
  by rewrite check_condition_accepted.
Qed.

(** The loop stops at the first condition that fails a test: the
    conditions after it play no part. *)
Lemma check_conditions_first_failure h i pre condition post e :
  Forall (accepted h) pre →
  check_condition h (i + length pre) condition = Throw e →
  check_conditions h i (pre ++ condition :: post) = Throw e.
Proof.
  intros Hpre. revert i.
  induction Hpre as [|c rest Hc _ IH]; intros i Hfail; simpl in *.
  - rewrite Nat.add_0_r in Hfail. by rewrite Hfail.
  - rewrite check_condition_accepted by done.
    apply IH. by replace (S i + length rest) with (i + S (length rest)) by lia.
Qed.

Lemma check_condition_not_object h i condition :
  is_object h condition = false →
  check_condition h i condition =
  Throw (JsError ("Condition at index " +:+ pretty i +:+ " must be an object")).
Proof.
  unfold is_object, check_condition. intros Hobj.
  apply andb_false_iff in Hobj as [-> | ->]; [done|].
  by rewrite orb_true_r.
Qed.

Lemma check_condition_no_check h i condition :
  is_object h condition = true →
  own_props h condition !! "check" = None →
  check_condition h i condition =
  Throw (JsError ("Condition at index " +:+ pretty i
                    +:+ " missing required property 'check'")).
Proof.
  unfold is_object, check_condition, has_property. intros Hobj Hnone.
  apply andb_true_iff in Hobj as [-> ->]. simpl.
  rewrite bool_decide_eq_false_2; [done|].
  rewrite Hnone. by intros [? ?].
Qed.

Lemma check_condition_no_name h i condition :
  is_object h condition = true →
  is_Some (own_props h condition !! "check") →
  own_props h condition !! "name" = None →
  check_condition h i condition =
  Throw (JsError ("Condition at index " +:+ pretty i
                    +:+ " missing required property 'name'")).
Proof.
  unfold is_object, check_condition, has_property. intros Hobj Hsome Hnone.
  apply andb_true_iff in Hobj as [-> ->]. simpl.
  rewrite bool_decide_eq_true_2 by done. simpl.
  rewrite bool_decide_eq_false_2; [done|].
  rewrite Hnone. by intros [? ?].
Qed.

Lemma check_conditions_at h pre condition post e :
  Forall (accepted h) pre →
  check_condition h (length pre) condition = Throw e →
  check_conditions h 0 (pre ++ condition :: post) = Throw e.
Proof. intros Hpre Hfail. by apply check_conditions_first_failure. Qed.

Lemma construction_throws h conditions defaultValue items e :
  array_items (entry_heap h conditions defaultValue)
    (conditions_param h conditions) = Some items →
  check_conditions (entry_heap h conditions defaultValue) 0 items = Throw e →
  (createEnvironmentNameBuilder h conditions defaultValue).2 = Throw e.
Proof.
  intros Hitems Hfail. rewrite createEnvironmentNameBuilder_unfold.
  simpl. by rewrite Hitems, Hfail.
Qed.

(** An object literal [{check: v, name: n}] is accepted whatever [v]. *)
Lemma condition_object_accepted h l check name :
  h !! l = Some (condition_object check name) → accepted h (VRef l).
Proof.
  intros Hl. unfold accepted, is_object, typeof, own_props.
  rewrite Hl. simpl. split; [done|].
  split; [by rewrite lookup_insert_eq|].
  rewrite lookup_insert_ne by done. by rewrite lookup_singleton_eq.
Qed.

Lemma lookup_alloc (h : heap) (o : object) : (h ++ [o]) !! length h = Some o.
Proof. by rewrite lookup_app_r, Nat.sub_diag by lia. Qed.

Lemma lookup_alloc_lt (h : heap) (o : object) (l : nat) :
  l < length h → (h ++ [o]) !! l = h !! l.
Proof. intros. by rewrite lookup_app_l. Qed.

(** The object at a location of class [CObject] shows its properties. *)
Lemma own_props_object (h : heap) l ps :
  h !! l = Some (Obj CObject ps) → own_props h (VRef l) = ps.
Proof. intros Hl. unfold own_props. by rewrite Hl. Qed.

Lemma this_get_object (h : heap) this ps k :
  h !! this = Some (Obj CObject ps) →
  this_get h this k = default VUndefined (ps !! k).
Proof. intros Hl. unfold this_get. by rewrite (own_props_object h this ps). Qed.

(** The store right after a successful construction. *)
Lemma builder_object_fields (h1 : heap) cs dv :
  let h2 := (h1 ++ [empty_object])
              ++ [builder_object cs dv (VRef (length h1))] in
  let this := length (h1 ++ [empty_object]) in
  context_of h2 this = ∅
  ∧ this_get h2 this "conditions" = cs
  ∧ this_get h2 this "defaultValue" = dv.
Proof.
  intros h2 this.
  assert (Hthis : h2 !! this
                  = Some (builder_object cs dv (VRef (length h1))))
    by apply lookup_alloc.
  assert (Hctx : h2 !! length h1 = Some empty_object).
  { unfold h2. rewrite lookup_alloc_lt by (rewrite length_app; simpl; lia).
    apply lookup_alloc. }
  unfold context_of.
  rewrite !(this_get_object h2 this _ _ Hthis).
  rewrite lookup_insert_eq.
  rewrite !lookup_insert_ne by done.
  rewrite lookup_insert_eq, lookup_singleton_eq.
  repeat split. apply (own_props_object h2 _ _ Hctx).
Qed.

(** C4. Construction validates its argument eagerly, in list order, and
    stops at the first violation.  With [h1] the store in which the body
    runs and [cs] the value of the [conditions] parameter there:
    - if [cs] is not an array, construction throws
      "Conditions must be an array";
    - if the elements before some index pass and the object at that index
      has no [check], it throws "Condition at index i missing required
      property 'check'"; if it has [check] but no [name], the same
      message for 'name';
    - if every element passes, no error is raised and the result is a
      builder holding [cs], the default value and an empty accumulated
      context;
    - presence is what is tested: an object [{check: v, name: n}] passes
      whatever [v] is, [false], [0] and [''] included;
    - [cs] is the argument itself unless the argument is [undefined]
      (left out), in which case it is a fresh empty array. *)
Theorem construction_validates_in_order
    (h : heap) (conditions defaultValue : value) :
  let h1 := entry_heap h conditions defaultValue in
  let cs := conditions_param h conditions in
  let built := createEnvironmentNameBuilder h conditions defaultValue in
  (array_items h1 cs = None →
     built.2 = Throw (JsError "Conditions must be an array"))
  ∧ (∀ pre condition post,
       array_items h1 cs = Some (pre ++ condition :: post) →
       Forall (accepted h1) pre →
       is_object h1 condition = true →
       (own_props h1 condition !! "check" = None →
          built.2 = Throw (missing_property (length pre) "check"))
       ∧ (is_Some (own_props h1 condition !! "check") →
          own_props h1 condition !! "name" = None →
          built.2 = Throw (missing_property (length pre) "name")))
  ∧ (∀ items,
       array_items h1 cs = Some items →
       Forall (accepted h1) items →
       ∃ this,
         built.2 = Normal (VRef this)
         ∧ context_of built.1 this = ∅
         ∧ this_get built.1 this "conditions" = cs
         ∧ this_get built.1 this "defaultValue"
             = defaultValue_param h conditions defaultValue)
  ∧ (∀ l check name,
       h1 !! l = Some (condition_object check name) → accepted h1 (VRef l))
  ∧ (conditions ≠ VUndefined → cs = conditions)
  ∧ (conditions = VUndefined → array_items h1 cs = Some []).
Proof.
  intros h1 cs built. split; [|split; [|split; [|split; [|split]]]].
  - intros Hnone. unfold built.
    rewrite createEnvironmentNameBuilder_unfold. simpl.
    fold h1 cs. by rewrite Hnone.
  - intros pre condition post Hitems Hpre Hobj. split.
    + intros Hnone. eapply construction_throws; [done|].
      apply check_conditions_at; [done|].
      by apply check_condition_no_check.
    + intros Hsome Hnone. eapply construction_throws; [done|].
      apply check_conditions_at; [done|].
      by apply check_condition_no_name.
  - intros items Hitems Hall. exists (length (h1 ++ [empty_object])).
    unfold built. rewrite createEnvironmentNameBuilder_unfold. simpl.
    fold h1 cs. rewrite Hitems, check_conditions_accepted by done. simpl.
    split; [done|]. apply builder_object_fields.
  - intros l check name. apply condition_object_accepted.
  - intros Hgiven. unfold cs, conditions_param. by destruct conditions.
  - intros ->. unfold h1, cs, entry_heap, conditions_param.
    cbn [default_param alloc fst snd]. unfold array_items, class_of.
    assert (Hcell : ∀ added : heap,
              ((h ++ [empty_array]) ++ added) !! length h = Some empty_array).
    { intros added. rewrite lookup_app_l by (rewrite length_app; simpl; lia).
      apply lookup_alloc. }
    destruct defaultValue; cbn [default_param alloc fst snd];
      first [by rewrite Hcell | by rewrite <- (app_nil_r (h ++ _)), Hcell].
Qed.


Lemma construction_validates_in_order_witness :
  let built conditions :=
    createEnvironmentNameBuilder construction_store conditions VUndefined in
  (built (VRef 0)).2 = Throw (JsError "Conditions must be an array")
  ∧ (built (VRef 7)).2 = Throw (missing_property 1 "check")
  ∧ (built (VRef 8)).2 = Throw (missing_property 2 "name")
  ∧ (∃ this, (built (VRef 6)).2 = Normal (VRef this)
             ∧ context_of (built (VRef 6)).1 this = ∅
             ∧ this_get (built (VRef 6)).1 this "conditions" = VRef 6
             ∧ this_get (built (VRef 6)).1 this "defaultValue" = VRef 11)
  ∧ accepted (entry_heap construction_store (VRef 6) VUndefined) (VRef 2).
Proof.
  cbv zeta beta.
  pose proof (construction_validates_in_order
                construction_store (VRef 0) VUndefined)
    as (Hnot_array & _).
  pose proof (construction_validates_in_order
                construction_store (VRef 7) VUndefined)
    as (_ & Hmissing_check & _).
  pose proof (construction_validates_in_order
                construction_store (VRef 8) VUndefined)
    as (_ & Hmissing_name & _).
  pose proof (construction_validates_in_order
                construction_store (VRef 6) VUndefined)
    as (_ & _ & Hsuccess & Hpresence & _).
  split; [|split; [|split; [|split]]].
  - exact (Hnot_array ltac:(computed)).
  - exact (proj1 (Hmissing_check [VRef 0] (VRef 3) [VBool true]
                    ltac:(computed) ltac:(accepted_by_computation)
                    ltac:(computed))
             ltac:(computed)).
  - exact (proj2 (Hmissing_name [VRef 0; VRef 1] (VRef 4) []
                    ltac:(computed) ltac:(accepted_by_computation)
                    ltac:(computed))
             ltac:(eexists; computed) ltac:(computed)).
  - exact (Hsuccess [VRef 0; VRef 1; VRef 2]
             ltac:(computed) ltac:(accepted_by_computation)).
  - exact (Hpresence 2 (VString "") (VString "empty") ltac:(computed)).
Defined.

(** ** Elements that are not objects *)

(** Which values pass the test of line 23: the references to an ordinary
    object or to an array.  Everything else ([undefined], [null],
    booleans, numbers, strings, symbols, functions) fails it. *)
Lemma is_object_true_iff h condition :
  is_object h condition = true ↔
  ∃ l o, condition = VRef l ∧ h !! l = Some o ∧ ∀ f, cls o ≠ CFunction f.
Proof.
  unfold is_object. split.
  - intros Hobj. apply andb_true_iff in Hobj as [Htruthy Htype].
    apply bool_decide_eq_true in Htype.
    destruct condition as [| | | | | | |l]; try discriminate.
    simpl in Htype. exists l.
    destruct (h !! l) as [[c ps]|]; [|discriminate].
    exists (Obj c ps). repeat split. intros f. simpl.
    destruct c; simpl in *; congruence.
  - intros (l & [c ps] & -> & Hl & Hcls). simpl. rewrite Hl. simpl.
    destruct c as [| |f]; try done. exfalso. by apply (Hcls f).
Qed.

Lemma array_is_object h condition :
  isArray h condition = true → is_object h condition = true.
Proof.
  unfold isArray, array_items, class_of. intros Harr.
  apply bool_decide_eq_true in Harr as [items Hitems].
  apply is_object_true_iff.
  destruct condition as [| | | | | | |l]; try discriminate.
  destruct (h !! l) as [[c ps]|] eqn:Hl; [|discriminate].
  exists l, (Obj c ps). split; [done|]. split; [done|]. intros f. simpl.
  destruct c; simpl in *; congruence.
Qed.

(** C5, as stated, fails: an array among the conditions is not a
    structured record, yet it passes the test of line 23 ([typeof []] is
    ['object']), and construction stops at the next test with the message
    about the missing [check] instead. *)
Lemma array_element_not_refused_as_non_object : ¬ rejects_every_non_record.
Proof.
  intros Hclaim.
  specialize (Hclaim construction_store (VRef 10) VUndefined
                [VRef 0] (VRef 5) []).
  assert (Hfalse : Throw (missing_property 1 "check")
                   = (Throw (must_be_an_object 1) : completion value)).
  { apply Hclaim; [reflexivity | accepted_by_computation | reflexivity]. }
  vm_compute in Hfalse. discriminate Hfalse.
Qed.

(** C5, amended. When the elements before index [i] pass and the element
    at [i] fails the test of line 23, i.e. is falsy or has a [typeof]
    other than ['object'] ([undefined], [null], a boolean, a number, a
    string, a symbol, a function), construction throws "Condition at
    index i must be an object".  An array passes that test: arrays are
    objects, and are examined for [check] and [name] like any other. *)
Theorem non_object_condition_refused
    (h : heap) (conditions defaultValue : value)
    (pre : list value) (condition : value) (post : list value) :
  let h1 := entry_heap h conditions defaultValue in
  let built := createEnvironmentNameBuilder h conditions defaultValue in
  array_items h1 (conditions_param h conditions)
    = Some (pre ++ condition :: post) →
  Forall (accepted h1) pre →
  (is_object h1 condition = false →
     built.2 = Throw (must_be_an_object (length pre)))
  ∧ (isArray h1 condition = true →
       is_object h1 condition = true
       ∧ (own_props h1 condition !! "check" = None →
            built.2 = Throw (missing_property (length pre) "check"))).
Proof.
  intros h1 built Hitems Hpre. split.
  - intros Hobj. eapply construction_throws; [done|].
    apply check_conditions_at; [done|].
    by apply check_condition_not_object.
  - intros Harr. pose proof (array_is_object _ _ Harr) as Hobj.
    split; [done|]. intros Hnone.
    eapply construction_throws; [done|].
    apply check_conditions_at; [done|].
    by apply check_condition_no_check.
Qed.

Lemma non_object_condition_refused_witness :
  (createEnvironmentNameBuilder construction_store (VRef 9) VUndefined).2
    = Throw (must_be_an_object 1)
  ∧ (createEnvironmentNameBuilder construction_store (VRef 10) VUndefined).2
    = Throw (missing_property 1 "check").
Proof.
  split.
  - exact (proj1 (non_object_condition_refused
                    construction_store (VRef 9) VUndefined
                    [VRef 0] (VBool true) [VRef 3]
                    ltac:(computed) ltac:(accepted_by_computation))
             ltac:(computed)).
  - exact (proj2 (proj2 (non_object_condition_refused
                           construction_store (VRef 10) VUndefined
                           [VRef 0] (VRef 5) []
                           ltac:(computed) ltac:(accepted_by_computation))
                    ltac:(computed))
             ltac:(computed)).
Defined.

(** ** Extending the store

    Allocation only adds cells: what was read from the store before is
    read from it after. *)

Lemma own_props_extend (h added : heap) v :
  in_store h v → own_props (h ++ added) v = own_props h v.
Proof.
  destruct v; try done. simpl. intros Hl. by rewrite lookup_app_l.
Qed.

Lemma class_of_extend (h added : heap) v :
  in_store h v → class_of (h ++ added) v = class_of h v.
Proof.
  destruct v; try done. simpl. intros Hl. by rewrite lookup_app_l.
Qed.

Lemma array_items_extend (h added : heap) v :
  in_store h v → array_items (h ++ added) v = array_items h v.
Proof. intros Hv. unfold array_items. by rewrite class_of_extend. Qed.

Lemma this_get_extend (h added : heap) this k :
  this < length h → this_get (h ++ added) this k = this_get h this k.
Proof. intros Hl. unfold this_get. by rewrite own_props_extend. Qed.

Lemma builder_cell_fields (h : heap) this conditions defaultValue context :
  h !! this = Some (builder_object conditions defaultValue context) →
  this_get h this "conditions" = conditions
  ∧ this_get h this "defaultValue" = defaultValue
  ∧ this_get h this "_context" = context.
Proof.
  intros Hthis. rewrite !(this_get_object h this _ _ Hthis).
  unfold builder_object. repeat split; by simplify_map_eq.
Qed.

Lemma builder_at_fields h this :
  builder_at h this →
  ∃ conditions defaultValue context,
    h !! this = Some (builder_object conditions defaultValue (VRef context))
    ∧ context < length h
    ∧ in_store h conditions
    ∧ this < length h
    ∧ this_get h this "conditions" = conditions
    ∧ this_get h this "defaultValue" = defaultValue
    ∧ this_get h this "_context" = VRef context.
Proof.
  intros (conditions & defaultValue & context & Hthis & Hctx & Hcs).
  exists conditions, defaultValue, context.
  split; [done|]. split; [done|]. split; [done|].
  split; [by eapply lookup_lt_Some|].
  by apply builder_cell_fields.
Qed.

(** What a builder shows of itself is not affected by allocation. *)
Lemma builder_view_extend (h added : heap) this :
  builder_at h this →
  builder_at (h ++ added) this
  ∧ context_of (h ++ added) this = context_of h this
  ∧ this_get (h ++ added) this "conditions" = this_get h this "conditions"
  ∧ array_items (h ++ added) (this_get h this "conditions")
      = array_items h (this_get h this "conditions")
  ∧ this_get (h ++ added) this "defaultValue"
      = this_get h this "defaultValue".
Proof.
  intros Hb.
  destruct (builder_at_fields _ _ Hb)
    as (cs & dv & c & Hthis & Hc & Hcs & Hlt & Hgcs & Hgdv & Hgc).
  split; [|split; [|split; [|split]]].
  - exists cs, dv, c. rewrite lookup_app_l by done.
    split; [done|]. split; [rewrite length_app; lia|].
    destruct cs; try done. simpl in *. rewrite length_app. lia.
  - unfold context_of. rewrite this_get_extend by done.
    rewrite Hgc. by apply own_props_extend.
  - by apply this_get_extend.
  - rewrite Hgcs. by apply array_items_extend.
  - by apply this_get_extend.
Qed.

(** ** Evaluation *)

Section EvaluateProperties.
Context `{Host}.

(** [evaluate] adds the context object to the store and then runs the
    loop over [this.conditions] with [ctx] bound to it. *)
Lemma evaluate_unfold h process_env this runtimeContext :
  evaluate h process_env this runtimeContext =
  let h2 := context_heap h process_env this runtimeContext in
  (h2,
   match array_items h2 (this_get h2 this "conditions") with
   | None => Throw (JsTypeError "this.conditions is not iterable")
   | Some conditions =>
       matches ← evaluate_conditions h2 (context_ref h runtimeContext)
                    conditions [];
       mret (match matches with
             | [] => Fallback (this_get h2 this "defaultValue")
             | _ :: _ => Matches matches
             end)
   end).
Proof.
  unfold evaluate, context_heap, context_ref, evaluate_heap, runtime_param.
  destruct (default_param h runtimeContext empty_object) as [h1 rt]; simpl.
  by destruct (array_items _ _).
Qed.

Lemma evaluate_store h process_env this runtimeContext :
  (evaluate h process_env this runtimeContext).1
  = context_heap h process_env this runtimeContext.
Proof. by rewrite evaluate_unfold. Qed.

(** A check that yields [v] gives the result [!!v], and the name is
    then read without error. *)
Lemma condition_result_value h ctx condition v :
  check_value h ctx condition = Normal v →
  condition_result h ctx condition = Normal (truthy v)
  ∧ get_prop h condition "name" = Normal (name_of h condition).
Proof.
  unfold check_value, condition_result, name_of. intros Hv.
  destruct condition; try discriminate; simpl in *;
    (split; [|done]);
    destruct (bool_decide _); try congruence;
    by destruct (call_function _ _ _ _); simplify_eq.
Qed.

Lemma evaluate_conditions_returns h ctx conditions matches :
  Forall (returns h ctx) conditions →
  evaluate_conditions h ctx conditions matches
  = Normal (matches ++ matching_by truthy h ctx conditions).
Proof.
  intros Hall. revert matches.
  induction Hall as [|condition rest [v Hv] _ IH]; intros matches; simpl.
  - by rewrite app_nil_r.
  - destruct (condition_result_value _ _ _ _ Hv) as [-> Hname].
    simpl. unfold matching_by, holds_by. simpl. rewrite Hv.
    destruct (truthy v); simpl; [|apply IH].
    rewrite Hname. simpl. rewrite IH. by rewrite <- app_assoc.
Qed.

(** C1, amended. Whenever [this.conditions] is the array [conditions]
    and every check yields a value (no predicate raises), [evaluate]
    returns one [(true, name)] pair for each condition whose check
    coerces to true, in the order of the condition list, repeated names
    included, and never a pair with [false]; if there is none, it
    returns the stored default value itself.  The coercion is [!!]:
    besides zero, the empty string, [null], [undefined] and [false],
    NaN is false too. *)
Theorem evaluate_reports_truthy_checks
    (h : heap) (process_env : value) (this : loc)
    (runtimeContext : value) (conditions : list value) :
  let h2 := context_heap h process_env this runtimeContext in
  let ctx := context_ref h runtimeContext in
  array_items h2 (this_get h2 this "conditions") = Some conditions →
  Forall (returns h2 ctx) conditions →
  (evaluate h process_env this runtimeContext).2
    = Normal (outcome_by truthy h2 this ctx conditions)
  ∧ Forall (fun m => m.1 = true) (matching_by truthy h2 ctx conditions)
  ∧ (∀ v, truthy v = listed_truthy v ∨ v = VNumber S754_nan).
Proof.
  intros h2 ctx Hitems Hall. split; [|split].
  - rewrite evaluate_unfold. simpl. fold h2 ctx. rewrite Hitems.
    rewrite evaluate_conditions_returns by done. simpl.
    done.
  - unfold matching_by. apply Forall_fmap. by apply Forall_true.
  - intros [| | | [] | | | |]; simpl; auto.
Qed.

End EvaluateProperties.


(** C1, as stated, fails: [!!NaN] is false, so a condition whose check is
    NaN is not reported, although NaN is none of the values the rule
    lists as false. *)
Lemma nan_check_not_reported : ¬ reports_by_listed_truthiness.
Proof.
  intros Hclaim.
  specialize (Hclaim sample_host evaluation_store (VRef 8) 11 VUndefined
                [VRef 9]).
  assert (Hfalse :
    Normal (Fallback (VString "fallback"))
    = Normal (Matches [(true, VString "nan")])).
  { apply Hclaim; [reflexivity | returns_by_computation]. }
  discriminate Hfalse.
Qed.

Lemma evaluate_reports_truthy_checks_witness :
  (evaluate (H := sample_host) evaluation_store (VRef 8) 5 (VRef 7)).2
    = Normal (Matches [(true, VString "first"); (true, VString "third")])
  ∧ (evaluate (H := sample_host) evaluation_store (VRef 8) 11 VUndefined).2
    = Normal (Fallback (VString "fallback")).
Proof.
  split.
  - apply (evaluate_reports_truthy_checks (H := sample_host)
             evaluation_store (VRef 8) 5 (VRef 7) [VRef 0; VRef 1; VRef 2]);
      [reflexivity | returns_by_computation].
  - apply (evaluate_reports_truthy_checks (H := sample_host)
             evaluation_store (VRef 8) 11 VUndefined [VRef 9]);
      [reflexivity | returns_by_computation].
Defined.

(** ** The effective context *)

Section ContextProperties.
Context `{Host}.

Lemma context_heap_extends h process_env this runtimeContext :
  ∃ added, context_heap h process_env this runtimeContext = h ++ added.
Proof.
  unfold context_heap, evaluate_heap, runtime_param.
  destruct runtimeContext; simpl; eexists;
    try reflexivity; by rewrite <- app_assoc.
Qed.

(** The object bound to [ctx] has exactly the merged properties. *)
Lemma context_object_props h process_env this runtimeContext :
  own_props (evaluate h process_env this runtimeContext).1
    (context_ref h runtimeContext)
  = effective_context (evaluate_heap h runtimeContext) process_env this
      (runtime_param h runtimeContext).
Proof.
  rewrite evaluate_store. unfold context_heap, context_ref.
  apply own_props_object, lookup_alloc.
Qed.

Lemma effective_context_lookup h process_env this runtimeContext k :
  effective_context h process_env this runtimeContext !! k
  = match own_props h runtimeContext !! k with
    | Some v => Some v
    | None =>
        match context_of h this !! k with
        | Some v => Some v
        | None => ({["env" := process_env]} : gmap string value) !! k
        end
    end.
Proof.
  unfold effective_context. rewrite !lookup_union.
  destruct (own_props h runtimeContext !! k);
    destruct (context_of h this !! k);
    by destruct (_ !! k).
Qed.

(** C2, amended. In the context object that [evaluate] builds, whatever
    [process.env] holds: a key that the runtime context sets resolves to
    the runtime value; without the runtime entry, a key that the
    accumulated context sets resolves to the accumulated value; without
    both, the key [env] resolves to [process.env] as a whole and every
    other key is absent.  The variables of the environment are not keys
    of the context: as long as neither layer sets [env], a variable that
    [process.env] sets to [ve] is what [ctx.env.k] reads. *)
Theorem context_precedence
    (h : heap) (process_env : value) (this : loc)
    (runtimeContext : value) (k : string) :
  let h1 := evaluate_heap h runtimeContext in
  let accumulated := context_of h1 this in
  let runtime := own_props h1 (runtime_param h runtimeContext) in
  let after := (evaluate h process_env this runtimeContext).1 in
  let ctx := context_ref h runtimeContext in
  let effective := own_props after ctx in
  (∀ vr, runtime !! k = Some vr → effective !! k = Some vr)
  ∧ (∀ va,
       runtime !! k = None → accumulated !! k = Some va →
       effective !! k = Some va)
  ∧ (runtime !! k = None → accumulated !! k = None →
     effective !! k = if decide (k = "env") then Some process_env else None)
  ∧ (∀ ve,
       in_store h process_env →
       own_props h process_env !! k = Some ve →
       runtime !! "env" = None → accumulated !! "env" = None →
       (env ← get_prop after ctx "env"; get_prop after env k) = Normal ve).
Proof.
  intros h1 accumulated runtime after ctx effective.
  assert (Hlookup : ∀ key,
            effective !! key
            = match runtime !! key with
              | Some v => Some v
              | None =>
                  match accumulated !! key with
                  | Some v => Some v
                  | None => ({["env" := process_env]} : gmap string value)
                              !! key
                  end
              end).
  { intros key. unfold effective, after, ctx.
    rewrite context_object_props. apply effective_context_lookup. }
  split; [|split; [|split]].
  - intros vr Hr. by rewrite Hlookup, Hr.
  - intros va Hr Ha. by rewrite Hlookup, Hr, Ha.
  - intros Hr Ha. rewrite Hlookup, Hr, Ha.
    destruct (decide (k = "env")) as [->|Hk].
    + by rewrite lookup_singleton_eq.
    + by apply lookup_singleton_ne.
  - intros ve Hin Hve Hr Ha.
    assert (Henv : get_prop after ctx "env" = Normal process_env).
    { unfold get_prop, ctx, context_ref. fold effective.
      by rewrite Hlookup, Hr, Ha, lookup_singleton_eq. }
    rewrite Henv. simpl.
    assert (Hsame : own_props after process_env = own_props h process_env).
    { unfold after. rewrite evaluate_store.
      destruct (context_heap_extends h process_env this runtimeContext)
        as [added ->].
      by apply own_props_extend. }
    unfold get_prop. rewrite Hsame, Hve.
    by destruct process_env.
Qed.

(** C6. The only thing [evaluate] adds to the store is the context
    object, and its properties are the shallow merge of
    [{env: process.env}], then the accumulated context, then the
    runtime context: under each key sits the value of the highest layer
    that has the key, as it is.  In particular an [env] supplied by the
    runtime or the accumulated context stands in place of
    [process.env] as a whole. *)
Theorem effective_context_is_shallow_merge
    (h : heap) (process_env : value) (this : loc) (runtimeContext : value) :
  let h1 := evaluate_heap h runtimeContext in
  let environment : gmap string value := {["env" := process_env]} in
  let accumulated := context_of h1 this in
  let runtime := own_props h1 (runtime_param h runtimeContext) in
  let effective :=
    own_props (evaluate h process_env this runtimeContext).1
      (context_ref h runtimeContext) in
  (evaluate h process_env this runtimeContext).1
    = h1 ++ [Obj CObject (runtime ∪ (accumulated ∪ environment))]
  ∧ effective = runtime ∪ (accumulated ∪ environment)
  ∧ (∀ k, effective !! k
          = match runtime !! k with
            | Some v => Some v
            | None =>
                match accumulated !! k with
                | Some v => Some v
                | None => environment !! k
                end
            end)
  ∧ (∀ v, runtime !! "env" = Some v → effective !! "env" = Some v)
  ∧ (∀ v, runtime !! "env" = None → accumulated !! "env" = Some v →
          effective !! "env" = Some v)
  ∧ (runtime !! "env" = None → accumulated !! "env" = None →
     effective !! "env" = Some process_env).
Proof.
  intros h1 environment accumulated runtime effective.
  assert (Hlookup : ∀ k, effective !! k
          = match runtime !! k with
            | Some v => Some v
            | None =>
                match accumulated !! k with
                | Some v => Some v
                | None => environment !! k
                end
            end).
  { intros k. unfold effective. rewrite context_object_props.
    by rewrite effective_context_lookup. }
  split; [by rewrite evaluate_store|].
  split; [unfold effective; by rewrite context_object_props|].
  split; [done|].
  split; [|split].
  - intros v Hv. by rewrite Hlookup, Hv.
  - intros v Hr Ha. by rewrite Hlookup, Hr, Ha.
  - intros Hr Ha. rewrite Hlookup, Hr, Ha.
    unfold environment. by rewrite lookup_singleton_eq.
Qed.

(** X16. The variables of the environment are not themselves keys of the
    context: a key other than [env] that neither the runtime nor the
    accumulated context sets is absent, whatever [process.env] holds.  A
    predicate reads the variable [K] as [ctx.env.K]. *)
Corollary environment_variable_is_not_a_key
    (h : heap) (process_env : value) (this : loc) (runtimeContext : value)
    (k : string) :
  let h1 := evaluate_heap h runtimeContext in
  k ≠ "env" →
  own_props h1 (runtime_param h runtimeContext) !! k = None →
  context_of h1 this !! k = None →
  own_props (evaluate h process_env this runtimeContext).1
    (context_ref h runtimeContext) !! k = None.
Proof.
  intros h1 Hk Hruntime Haccumulated.
  rewrite context_object_props, effective_context_lookup.
  fold h1. rewrite Hruntime, Haccumulated.
  by apply lookup_singleton_ne.
Qed.

End ContextProperties.

(** The claim as it reads fails for a variable of the environment: with
    [process.env] holding [NODE_ENV: 'production'] and neither the
    accumulated nor the runtime context setting [NODE_ENV], the context
    object has no key [NODE_ENV]. *)
Lemma environment_variable_not_resolved : ¬ resolves_variables_by_layer.
Proof.
  intros Hclaim.
  destruct (Hclaim sample_host evaluation_store (VRef 8) 11 VUndefined
              "NODE_ENV" (VString "production") eq_refl)
    as (_ & _ & Hboth_absent).
  specialize (Hboth_absent eq_refl eq_refl).
  vm_compute in Hboth_absent. discriminate Hboth_absent.
Qed.

Lemma context_precedence_witness :
  sample_effective 5 (VRef 7) !! "tier" = Some (VString "premium")
  ∧ sample_effective 5 VUndefined !! "tier" = Some (VString "basic")
  ∧ sample_effective 11 VUndefined !! "env" = Some (VRef 8)
  ∧ sample_effective 11 VUndefined !! "NODE_ENV" = None
  ∧ (env ← get_prop
             (evaluate (H := sample_host) evaluation_store (VRef 8) 11
                VUndefined).1
             (context_ref evaluation_store VUndefined) "env";
     get_prop
       (evaluate (H := sample_host) evaluation_store (VRef 8) 11
          VUndefined).1
       env "NODE_ENV")
    = Normal (VString "production").
Proof.
  split; [|split; [|split; [|split]]].
  - exact (proj1 (context_precedence (H := sample_host)
                    evaluation_store (VRef 8) 5 (VRef 7) "tier")
             (VString "premium") ltac:(computed)).
  - exact (proj1 (proj2 (context_precedence (H := sample_host)
                           evaluation_store (VRef 8) 5 VUndefined "tier"))
             (VString "basic") ltac:(computed) ltac:(computed)).
  - exact (proj1 (proj2 (proj2 (context_precedence (H := sample_host)
                                  evaluation_store (VRef 8) 11 VUndefined
                                  "env")))
             ltac:(computed) ltac:(computed)).
  - exact (proj1 (proj2 (proj2 (context_precedence (H := sample_host)
                                  evaluation_store (VRef 8) 11 VUndefined
                                  "NODE_ENV")))
             ltac:(computed) ltac:(computed)).
  - exact (proj2 (proj2 (proj2 (context_precedence (H := sample_host)
                                  evaluation_store (VRef 8) 11 VUndefined
                                  "NODE_ENV")))
             (VString "production") ltac:(simpl; lia) ltac:(computed)
             ltac:(computed) ltac:(computed)).
Defined.

Lemma effective_context_is_shallow_merge_witness :
  sample_effective 5 (VRef 17) !! "env" = Some (VString "theirs")
  ∧ sample_effective 5 (VRef 7) !! "env" = Some (VString "mine")
  ∧ sample_effective 11 (VRef 7) !! "env" = Some (VRef 8)
  ∧ sample_effective 5 (VRef 7) !! "tier" = Some (VString "premium").
Proof.
  pose proof (effective_context_is_shallow_merge (H := sample_host)
                evaluation_store (VRef 8) 5 (VRef 17))
    as (_ & _ & _ & Hruntime & _).
  pose proof (effective_context_is_shallow_merge (H := sample_host)
                evaluation_store (VRef 8) 5 (VRef 7))
    as (_ & _ & Hkey & _ & Haccumulated & _).
  pose proof (effective_context_is_shallow_merge (H := sample_host)
                evaluation_store (VRef 8) 11 (VRef 7))
    as (_ & _ & _ & _ & _ & Henvironment).
  split; [|split; [|split]].
  - apply Hruntime. lookup_by_computation.
  - apply Haccumulated; lookup_by_computation.
  - apply Henvironment; lookup_by_computation.
  - unfold sample_effective. rewrite Hkey. lookup_by_computation.
Defined.

(** ** A check that raises *)

Section ErrorProperties.
Context `{Host}.

(** The loop stops at the first condition whose result is an error:
    the conditions after it play no part, and the matches collected so
    far are dropped. *)
Lemma evaluate_conditions_stops h ctx pre condition post matches e :
  Forall (returns h ctx) pre →
  condition_result h ctx condition = Throw e →
  evaluate_conditions h ctx (pre ++ condition :: post) matches = Throw e.
Proof.
  intros Hpre Hfail. revert matches.
  induction Hpre as [|c rest [v Hv] _ IH]; intros matches; simpl.
  - by rewrite Hfail.
  - destruct (condition_result_value _ _ _ _ Hv) as [-> Hname]. simpl.
    destruct (truthy v); [|apply IH].
    rewrite Hname. simpl. apply IH.
Qed.



End ErrorProperties.



(** ** Updating the builder *)

Lemma this_set_lookup (h : heap) this k v c ps :
  h !! this = Some (Obj c ps) →
  this_set h this k v !! this = Some (Obj c (<[k := v]> ps)).
Proof.
  intros Hthis. unfold this_set.
  by rewrite list_lookup_alter_eq, Hthis.
Qed.

Lemma this_set_lookup_ne (h : heap) this k v l :
  l ≠ this → this_set h this k v !! l = h !! l.
Proof. intros Hne. unfold this_set. by rewrite list_lookup_alter_ne. Qed.

Lemma this_set_length (h : heap) this k v :
  length (this_set h this k v) = length h.
Proof. unfold this_set. apply length_alter. Qed.

(** The effect of [this._context = fresh] where [fresh] is a newly
    allocated object [o]: the builder keeps its other two properties, its
    accumulated context becomes the properties of [o], and no other
    object of the store changes. *)
Lemma set_fresh_context (h : heap) this ps :
  builder_at h this →
  let after :=
    this_set (h ++ [Obj CObject ps]) this "_context" (VRef (length h)) in
  builder_at after this
  ∧ context_of after this = ps
  ∧ this_get after this "conditions" = this_get h this "conditions"
  ∧ this_get after this "defaultValue" = this_get h this "defaultValue"
  ∧ (∀ l o, l ≠ this → h !! l = Some o → after !! l = Some o).
Proof.
  intros Hb after.
  destruct (builder_at_fields _ _ Hb)
    as (cs & dv & c & Hthis & Hc & Hcs & Hlt & Hgcs & Hgdv & Hgc).
  assert (Hafter : after !! this
                   = Some (builder_object cs dv (VRef (length h)))).
  { unfold after.
    rewrite (this_set_lookup _ this _ _ CObject
               (props (builder_object cs dv (VRef c))))
      by (by rewrite lookup_app_l).
    f_equal. }
  assert (Hb' : builder_at after this).
  { assert (Hlen : length after = S (length h)).
    { unfold after. rewrite this_set_length, length_app. simpl. lia. }
    exists cs, dv, (length h). split; [done|].
    split; [lia|]. destruct cs; try done. simpl in *. lia. }
  destruct (builder_cell_fields _ _ _ _ _ Hafter) as (Hgcs' & Hgdv' & Hgc').
  split; [done|]. split; [|split; [|split]].
  - unfold context_of. rewrite Hgc'. apply own_props_object.
    unfold after. rewrite this_set_lookup_ne by lia. apply lookup_alloc.
  - by rewrite Hgcs, Hgcs'.
  - by rewrite Hgdv, Hgdv'.
  - intros l o Hne Hl. unfold after. rewrite this_set_lookup_ne by done.
    by apply lookup_app_l_Some.
Qed.

(** The test of line 46 singles out the structured records. *)
Lemma is_plain_object_record h ctx : is_plain_object h ctx = is_record h ctx.
Proof.
  unfold is_plain_object, is_record, isArray, array_items, typeof.
  destruct ctx as [| | | | | | |l]; try done; simpl;
    try (by rewrite andb_false_r).
  destruct (h !! l) as [[[| |] ps]|]; done.
Qed.

Lemma withContext_unfold h this ctx :
  withContext h this ctx =
  let h1 := (default_param h ctx empty_object).1 in
  let ctx1 := (default_param h ctx empty_object).2 in
  if is_record h1 ctx1 then
    (this_set (h1 ++ [Obj CObject (own_props h1 ctx1 ∪ context_of h1 this)])
       this "_context" (VRef (length h1)),
     Normal (VRef this))
  else (h1, Normal (VRef this)).
Proof.
  unfold withContext.
  destruct (default_param h ctx empty_object) as [h1 ctx1]. simpl.
  rewrite is_plain_object_record. by destruct (is_record h1 ctx1).
Qed.

(** What [withContext] does, by kind of argument. *)
Lemma withContext_spec h this ctx :
  builder_at h this →
  let after := (withContext h this ctx).1 in
  (withContext h this ctx).2 = Normal (VRef this)
  ∧ builder_at after this
  ∧ this_get after this "conditions" = this_get h this "conditions"
  ∧ this_get after this "defaultValue" = this_get h this "defaultValue"
  ∧ (∀ l o, l ≠ this → h !! l = Some o → after !! l = Some o)
  ∧ context_of after this
    = if is_record h ctx then own_props h ctx ∪ context_of h this
      else context_of h this.
Proof.
  intros Hb after. unfold after. rewrite withContext_unfold.
  destruct (decide (ctx = VUndefined)) as [->|Hdef].
  - (* the default: a fresh empty object is merged in *)
    assert (Hparam : default_param h VUndefined empty_object
                     = (h ++ [empty_object], VRef (length h)))
      by reflexivity.
    cbv zeta. rewrite Hparam. cbn [fst snd].
    destruct (builder_view_extend h [empty_object] this Hb)
      as (Hb1 & Hctx1 & Hcs1 & _ & Hdv1).
    assert (Hrec : is_record (h ++ [empty_object]) (VRef (length h)) = true).
    { unfold is_record. simpl. by rewrite lookup_alloc. }
    rewrite Hrec. cbn [fst snd].
    rewrite (own_props_object (h ++ [empty_object]) (length h) ∅)
      by apply lookup_alloc.
    destruct (set_fresh_context (h ++ [empty_object]) this
                (∅ ∪ context_of (h ++ [empty_object]) this) Hb1)
      as (Hb2 & Hctx2 & Hcs2 & Hdv2 & Hframe).
    split; [done|]. split; [done|].
    split; [by rewrite Hcs2|]. split; [by rewrite Hdv2|].
    split.
    + intros l o Hne Hl. apply Hframe; [done|]. by apply lookup_app_l_Some.
    + rewrite Hctx2, Hctx1. by rewrite (left_id_L ∅ (∪)).
  - assert (Hparam : default_param h ctx empty_object = (h, ctx))
      by (by destruct ctx).
    cbv zeta. rewrite Hparam. cbn [fst snd].
    destruct (is_record h ctx) eqn:Hrec; cbn [fst snd]; [|done].
    destruct (set_fresh_context h this
                (own_props h ctx ∪ context_of h this) Hb)
      as (Hb2 & Hctx2 & Hcs2 & Hdv2 & Hframe).
    done.
Qed.

(** C7. For a builder at [this], [withContext(ctx)] returns the builder
    itself in every case.  If [ctx] is a structured record, the
    accumulated context becomes its shallow merge with [ctx]: the keys of
    [ctx] take the values of [ctx], the other keys keep theirs; a second
    call merges on top of the first, so later calls win on shared keys.
    For any other argument (an array, [null], a primitive, a function,
    [undefined]) the accumulated context stays as it is and nothing is
    thrown. *)
Theorem withContext_merges_records (h : heap) (this : loc) (ctx : value) :
  builder_at h this →
  let after := (withContext h this ctx).1 in
  (withContext h this ctx).2 = Normal (VRef this)
  ∧ builder_at after this
  ∧ (is_record h ctx = true →
       context_of after this = own_props h ctx ∪ context_of h this
       ∧ (∀ k v, own_props h ctx !! k = Some v →
                 context_of after this !! k = Some v)
       ∧ (∀ k, own_props h ctx !! k = None →
               context_of after this !! k = context_of h this !! k)
       ∧ (∀ ctx2, is_record after ctx2 = true →
            (withContext after this ctx2).2 = Normal (VRef this)
            ∧ context_of (withContext after this ctx2).1 this
              = own_props after ctx2
                  ∪ (own_props h ctx ∪ context_of h this)))
  ∧ (is_record h ctx = false → context_of after this = context_of h this).
Proof.
  intros Hb after.
  destruct (withContext_spec h this ctx Hb)
    as (Hret & Hb' & _ & _ & _ & Hctx).
  fold after in Hb', Hctx.
  split; [done|]. split; [done|]. split.
  - intros Hrec. rewrite Hrec in Hctx.
    split; [done|]. split; [|split].
    + intros k v Hk. rewrite Hctx. by apply lookup_union_Some_l.
    + intros k Hk. rewrite Hctx. by apply lookup_union_r.
    + intros ctx2 Hrec2.
      destruct (withContext_spec after this ctx2 Hb')
        as (Hret2 & _ & _ & _ & _ & Hctx2).
      split; [done|]. by rewrite Hctx2, Hrec2, Hctx.
  - intros Hrec. by rewrite Hrec in Hctx.
Qed.

(** C10. A function given to [withContext] is ignored like the other
    arguments that are not records: the store is left exactly as it was,
    so [getContext] shows the same mapping after the call as before, and
    the builder itself is returned. *)
Theorem withContext_ignores_functions
    (h : heap) (this : loc) (fn : value) (f : nat) :
  builder_at h this →
  class_of h fn = Some (CFunction f) →
  withContext h this fn = (h, Normal (VRef this))
  ∧ getContext (withContext h this fn).1 this = getContext h this
  ∧ context_of (withContext h this fn).1 this = context_of h this.
Proof.
  intros Hb Hfn.
  assert (Hcall : withContext h this fn = (h, Normal (VRef this))).
  { rewrite withContext_unfold.
    destruct fn as [| | | | | | |l]; try discriminate. simpl.
    unfold is_record. by rewrite Hfn. }
  by rewrite Hcall.
Qed.

Lemma builder_at_sample : builder_at evaluation_store 5.
Proof.
  exists (VRef 4), (VString "fallback"), 6.
  split; [reflexivity|]. split; simpl; lia.
Defined.

Lemma withContext_merges_records_witness :
  let after := (withContext evaluation_store 5 (VRef 7)).1 in
  (withContext evaluation_store 5 (VRef 7)).2 = Normal (VRef 5)
  ∧ context_of after 5 !! "tier" = Some (VString "premium")
  ∧ context_of after 5 !! "env" = Some (VString "mine")
  ∧ context_of (withContext evaluation_store 5 (VRef 4)).1 5
    = context_of evaluation_store 5.
Proof.
  cbv zeta beta.
  destruct (withContext_merges_records evaluation_store 5 (VRef 7)
              builder_at_sample) as (Hret & _ & Hrecord & _).
  destruct (Hrecord eq_refl) as (_ & Hwins & Hkeeps & _).
  destruct (withContext_merges_records evaluation_store 5 (VRef 4)
              builder_at_sample) as (_ & _ & _ & Hignored).
  split; [exact Hret|]. split; [|split].
  - apply Hwins. lookup_by_computation.
  - rewrite Hkeeps by lookup_by_computation.
    lookup_by_computation.
  - apply Hignored. reflexivity.
Defined.

Lemma withContext_ignores_functions_witness :
  withContext evaluation_store 5 (VRef 3)
    = (evaluation_store, Normal (VRef 5))
  ∧ getContext (withContext evaluation_store 5 (VRef 3)).1 5
    = getContext evaluation_store 5.
Proof.
  destruct (withContext_ignores_functions evaluation_store 5 (VRef 3) 1
              builder_at_sample eq_refl) as (Hsame & Hget & _).
  split; [exact Hsame | exact Hget].
Defined.

(** ** What the operations leave in place *)

(** If every object other than the builder is as it was, the condition
    list reads the same: the same array of the same elements, each with
    the same properties. *)
Lemma conditions_framed (h after : heap) this items :
  builder_at h this →
  (∀ l o, l ≠ this → h !! l = Some o → after !! l = Some o) →
  array_items h (this_get h this "conditions") = Some items →
  Forall (accepted h) items →
  array_items after (this_get h this "conditions") = Some items
  ∧ Forall (fun condition =>
              own_props after condition = own_props h condition) items
  ∧ Forall (accepted after) items.
Proof.
  intros Hb Hframe Hitems Hall.
  cut (array_items after (this_get h this "conditions") = Some items
       ∧ Forall (fun condition =>
                   own_props after condition = own_props h condition
                   ∧ accepted after condition) items).
  { intros [Harray Hboth]. split; [done|].
    split; eapply Forall_impl; try exact Hboth; by intros ? [? ?]. }
  destruct (builder_at_fields _ _ Hb)
    as (cs & dv & c & Hthis & _ & _ & _ & Hgcs & _ & _).
  rewrite Hgcs in *. split.
  - unfold array_items, class_of in *.
    destruct cs as [| | | | | | |a]; try discriminate.
    destruct (h !! a) as [o|] eqn:Ha; [|discriminate].
    assert (a ≠ this).
    { intros ->. rewrite Hthis in Ha. injection Ha as <-. discriminate. }
    by rewrite (Hframe a o).
  - eapply Forall_impl; [exact Hall|].
    intros condition (Hobj & Hcheck & Hname).
    apply is_object_true_iff in Hobj as (l & o & -> & Hl & Hcls).
    assert (l ≠ this).
    { intros ->.
      rewrite (own_props_object h this _ Hthis) in Hcheck.
      unfold builder_object in Hcheck. simpl in Hcheck.
      destruct Hcheck as [v Hv]. by simplify_map_eq. }
    assert (Hsame : own_props after (VRef l) = own_props h (VRef l)).
    { unfold own_props. by rewrite Hl, (Hframe l o). }
    split; [done|]. rewrite <- Hsame in Hcheck, Hname.
    split; [|done]. apply is_object_true_iff.
    exists l, o. split; [done|]. split; [by apply Hframe | done].
Qed.

Section Invariants.
Context `{Host}.

(** What each operation does to the builder and to the rest of the
    store. *)
Lemma perform_spec h this op :
  builder_at h this →
  let after := perform h this op in
  builder_at after this
  ∧ this_get after this "conditions" = this_get h this "conditions"
  ∧ this_get after this "defaultValue" = this_get h this "defaultValue"
  ∧ (∀ l o, l ≠ this → h !! l = Some o → after !! l = Some o)
  ∧ context_step op (context_of h this) (context_of after this)
  ∧ match op with
    | OpEvaluate _ _ | OpGetContext => ∃ added, after = h ++ added
    | OpWithContext _ | OpResetContext => True
    end.
Proof.
  intros Hb after. destruct op as [ctx| | |process_env runtimeContext].
  - destruct (withContext_spec h this ctx Hb)
      as (_ & Hb' & Hcs & Hdv & Hframe & Hctx).
    repeat (split; [done|]). split; [|done].
    simpl. unfold after. simpl. rewrite Hctx.
    destruct (is_record h ctx); [|done].
    rewrite dom_union_L. set_solver.
  - destruct (set_fresh_context h this ∅ Hb)
      as (Hb' & Hctx & Hcs & Hdv & Hframe).
    by repeat (split; [done|]).
  - destruct (builder_view_extend h [Obj CObject (context_of h this)]
                this Hb) as (Hb' & Hctx & Hcs & _ & Hdv).
    repeat (split; [done|]).
    split; [intros l o _ Hl; by apply lookup_app_l_Some|].
    split; [done|]. by eexists.
  - unfold after. simpl. rewrite evaluate_store.
    destruct (context_heap_extends h process_env this runtimeContext)
      as [added Hadded].
    rewrite Hadded.
    destruct (builder_view_extend h added this Hb)
      as (Hb' & Hctx & Hcs & _ & Hdv).
    repeat (split; [done|]).
    split; [intros l o _ Hl; by apply lookup_app_l_Some|].
    split; [done|]. by eexists.
Qed.

(** C9. Every operation on a builder leaves its condition list and its
    default value as they were: the two properties keep their values,
    no object of the store other than the builder is touched, and the
    list still reads as the same elements with the same properties.
    [evaluate] (like [getContext]) only adds to the store, so it
    changes neither the builder nor its accumulated context;
    [resetContext] leaves the accumulated context empty and changes
    nothing else; no other operation drops a key of the accumulated
    context. *)
Theorem operations_preserve_definition
    (h : heap) (this : loc) (op : operation) (items : list value) :
  builder_at h this →
  array_items h (this_get h this "conditions") = Some items →
  Forall (accepted h) items →
  let after := perform h this op in
  builder_at after this
  ∧ this_get after this "conditions" = this_get h this "conditions"
  ∧ this_get after this "defaultValue" = this_get h this "defaultValue"
  ∧ array_items after (this_get after this "conditions") = Some items
  ∧ Forall (fun condition =>
              own_props after condition = own_props h condition) items
  ∧ (∀ l o, l ≠ this → h !! l = Some o → after !! l = Some o)
  ∧ context_step op (context_of h this) (context_of after this)
  ∧ match op with
    | OpEvaluate _ _ | OpGetContext => ∃ added, after = h ++ added
    | OpWithContext _ | OpResetContext => True
    end.
Proof.
  intros Hb Hitems Hall after.
  destruct (perform_spec h this op Hb)
    as (Hb' & Hcs & Hdv & Hframe & Hstep & Hpure).
  destruct (conditions_framed h after this items Hb Hframe Hitems Hall)
    as (Harray & Hprops & _).
  fold after in Hcs. rewrite Hcs.
  repeat (split; [done|]). done.
Qed.

(** X5. The same over any sequence of operations: the condition list and
    the default value are fixed once the builder is constructed. *)
Corollary definition_fixed_after_construction
    (h : heap) (this : loc) (items : list value) (ops : list operation) :
  builder_at h this →
  array_items h (this_get h this "conditions") = Some items →
  Forall (accepted h) items →
  let after := perform_all h this ops in
  builder_at after this
  ∧ this_get after this "conditions" = this_get h this "conditions"
  ∧ this_get after this "defaultValue" = this_get h this "defaultValue"
  ∧ array_items after (this_get after this "conditions") = Some items
  ∧ Forall (accepted after) items.
Proof.
  revert h. induction ops as [|op ops IH]; intros h Hb Hitems Hall; [done|].
  simpl.
  destruct (perform_spec h this op Hb)
    as (Hb' & Hcs & Hdv & Hframe & _ & _).
  destruct (conditions_framed h (perform h this op) this items
              Hb Hframe Hitems Hall) as (Harray & _ & Hall').
  rewrite <- Hcs in Harray.
  destruct (IH (perform h this op) Hb' Harray Hall')
    as (Hb2 & Hcs2 & Hdv2 & Harray2 & Hall2).
  unfold perform_all in *. simpl in *.
  repeat split; try done; congruence.
Qed.

End Invariants.

Lemma operations_preserve_definition_witness :
  let after op := perform (H := sample_host) evaluation_store 5 op in
  context_of (after OpResetContext) 5 = ∅
  ∧ this_get (after OpResetContext) 5 "conditions" = VRef 4
  ∧ this_get (after OpResetContext) 5 "defaultValue" = VString "fallback"
  ∧ context_of (after (OpEvaluate (VRef 8) (VRef 7))) 5
    = context_of evaluation_store 5
  ∧ array_items (after (OpWithContext (VRef 7))) (VRef 4)
    = Some [VRef 0; VRef 1; VRef 2].
Proof.
  cbv zeta beta.
  assert (Hitems : array_items evaluation_store
                     (this_get evaluation_store 5 "conditions")
                   = Some [VRef 0; VRef 1; VRef 2]) by computed.
  assert (Hall : Forall (accepted evaluation_store) [VRef 0; VRef 1; VRef 2])
    by accepted_by_computation.
  destruct (operations_preserve_definition (H := sample_host)
              evaluation_store 5 OpResetContext _
              builder_at_sample Hitems Hall)
    as (_ & Hcs & Hdv & _ & _ & _ & Hreset & _).
  destruct (operations_preserve_definition (H := sample_host)
              evaluation_store 5 (OpEvaluate (VRef 8) (VRef 7)) _
              builder_at_sample Hitems Hall)
    as (_ & _ & _ & _ & _ & _ & Hevaluate & _).
  destruct (operations_preserve_definition (H := sample_host)
              evaluation_store 5 (OpWithContext (VRef 7)) _
              builder_at_sample Hitems Hall)
    as (_ & Hcs' & _ & Harray & _).
  split; [exact Hreset|]. split; [exact Hcs|]. split; [exact Hdv|].
  split; [exact Hevaluate|]. rewrite Hcs' in Harray. exact Harray.
Defined.

(** ** Stores that agree on what is reachable *)

Lemma agree_here h h' l : agree_from h h' (VRef l) → h' !! l = h !! l.
Proof. intros Hagree. apply Hagree, reach_here. Qed.

Lemma own_props_agree h h' v :
  agree_from h h' v → own_props h' v = own_props h v.
Proof.
  destruct v; try done. intros Hagree. simpl.
  by rewrite (agree_here _ _ _ Hagree).
Qed.

Lemma class_of_agree h h' v :
  agree_from h h' v → class_of h' v = class_of h v.
Proof.
  destruct v; try done. intros Hagree. simpl.
  by rewrite (agree_here _ _ _ Hagree).
Qed.

Lemma typeof_agree h h' v : agree_from h h' v → typeof h' v = typeof h v.
Proof.
  destruct v; try done. intros Hagree. simpl.
  by rewrite (agree_here _ _ _ Hagree).
Qed.

Lemma get_prop_agree h h' v k :
  agree_from h h' v → get_prop h' v k = get_prop h v k.
Proof.
  intros Hagree. unfold get_prop.
  by rewrite (own_props_agree _ _ _ Hagree).
Qed.

Lemma index_props_elem items k w :
  index_props items !! k = Some w → w ∈ items.
Proof.
  unfold index_props. intros Hk.
  apply elem_of_list_to_map_2 in Hk.
  apply elem_of_lookup_imap_1 in Hk as (i & y & Heq & Hy).
  injection Heq as _ ->. by eapply list_elem_of_lookup_2.
Qed.

(** A property of [v] is reached from [v]. *)
Lemma own_props_reach h v k w l :
  own_props h v !! k = Some w → reach h w l → reach h v l.
Proof.
  destruct v as [| | | | |s| |l0]; simpl; try by rewrite lookup_empty.
  - intros Hk Hreach. apply index_props_elem in Hk.
    unfold string_chars in Hk. apply list_elem_of_fmap in Hk as (c & -> & _).
    inversion Hreach.
  - destruct (h !! l0) as [[c ps]|] eqn:Hl0; [|by rewrite lookup_empty].
    destruct c as [|items|f]; intros Hk Hreach.
    + by eapply reach_property.
    + apply lookup_union_Some_raw in Hk as [Hk | [_ Hk]].
      * by eapply reach_property.
      * eapply reach_element; [done|done| |done].
        by eapply index_props_elem.
    + by eapply reach_property.
Qed.

Lemma get_prop_reach h v k w l :
  get_prop h v k = Normal w → reach h w l → reach h v l.
Proof.
  unfold get_prop. intros Hget Hreach.
  destruct (own_props h v !! k) as [w'|] eqn:Hk.
  - eapply own_props_reach; [exact Hk|].
    by destruct v; simplify_eq.
  - destruct v; simplify_eq; inversion Hreach.
Qed.

Lemma agree_from_sub h h' v w :
  agree_from h h' v → (∀ l, reach h w l → reach h v l) → agree_from h h' w.
Proof. intros Hagree Hsub l Hreach. by apply Hagree, Hsub. Qed.

Section Locality.
Context `{LocalHost}.

Lemma ToString_agree h h' v :
  agree_from h h' v → ToString h' v = ToString h v.
Proof.
  destruct v; try done. intros Hagree. simpl.
  by apply object_to_string_local.
Qed.

(** One condition gives the same result on two stores that agree on what
    is reachable from the condition and from the context object. *)
Lemma condition_result_agree h h' ctx condition :
  agree_from h h' condition → agree_from h h' ctx →
  condition_result h' ctx condition = condition_result h ctx condition.
Proof.
  intros Hcond Hctx. unfold condition_result.
  rewrite (get_prop_agree _ _ _ _ Hcond).
  destruct (get_prop h condition "check") as [check|e] eqn:Hcheck;
    simpl; [|done].
  assert (Hcheck' : agree_from h h' check).
  { eapply agree_from_sub; [exact Hcond|].
    intros l. by eapply get_prop_reach. }
  rewrite (typeof_agree _ _ _ Hcheck').
  destruct (bool_decide (typeof h check = "function")); [|done].
  assert (Hsame : call_function h' check condition ctx
                  = call_function h check condition ctx).
  { unfold call_function. rewrite (class_of_agree _ _ _ Hcheck').
    destruct (class_of h check) as [[|items|f]|]; try done.
    by apply call_local. }
  rewrite Hsame.
  destruct (call_function h check condition ctx) as [returned|error]
    eqn:Hcall; [done|].
  unfold evaluation_error.
  rewrite (get_prop_agree _ _ _ _ Hcond).
  destruct (get_prop h condition "name") as [name|e] eqn:Hname;
    simpl; [|done].
  assert (Hname' : agree_from h h' name).
  { eapply agree_from_sub; [exact Hcond|].
    intros l. by eapply get_prop_reach. }
  rewrite (ToString_agree _ _ _ Hname').
  destruct (ToString h name) as [shown_name|e]; simpl; [|done].
  assert (Hmessage : exn_message h' error = exn_message h error
            ∧ ∀ message, exn_message h error = Normal message →
                         agree_from h h' message).
  { destruct error as [msg|msg|v]; simpl.
    - split; [done|]. intros message [= <-] l Hreach. inversion Hreach.
    - split; [done|]. intros message [= <-] l Hreach. inversion Hreach.
    - assert (Hv : agree_from h h' v).
      { intros l Hreach. unfold call_function in Hcall.
        destruct (class_of h check) as [[|items|f]|]; try discriminate.
        destruct (call_thrown_local f h condition ctx v l Hcall Hreach);
          [by apply Hcond | by apply Hctx]. }
      split; [by apply get_prop_agree|].
      intros message Hget. eapply agree_from_sub; [exact Hv|].
      intros l. by eapply get_prop_reach. }
  destruct Hmessage as [-> Hmessage].
  destruct (exn_message h error) as [message|e]; simpl; [|done].
  by rewrite (ToString_agree _ _ _ (Hmessage message eq_refl)).
Qed.

Lemma evaluate_conditions_agree h h' ctx conditions matches :
  Forall (agree_from h h') conditions → agree_from h h' ctx →
  evaluate_conditions h' ctx conditions matches
  = evaluate_conditions h ctx conditions matches.
Proof.
  intros Hall Hctx. revert matches.
  induction Hall as [|condition rest Hcond _ IH]; intros matches; [done|].
  simpl. rewrite (condition_result_agree _ _ _ _ Hcond Hctx).
  destruct (condition_result h ctx condition) as [[|]|e]; simpl; try done.
  rewrite (get_prop_agree _ _ _ _ Hcond).
  destruct (get_prop h condition "name"); simpl; [apply IH | done].
Qed.

End Locality.

(** ** Closed stores *)

Lemma closed_lookup (h : heap) l o :
  closed h → h !! l = Some o → closed_object h o.
Proof. intros Hclosed Hl. by eapply Forall_lookup_1. Qed.

Lemma own_props_closed h v k w :
  closed h → in_store h v → own_props h v !! k = Some w → in_store h w.
Proof.
  intros Hclosed Hin.
  destruct v as [| | | | |s| |l]; simpl; try by rewrite lookup_empty.
  - intros Hk. apply index_props_elem in Hk.
    unfold string_chars in Hk. by apply list_elem_of_fmap in Hk as (c & -> & _).
  - destruct (h !! l) as [[c ps]|] eqn:Hl; [|by rewrite lookup_empty].
    destruct (closed_lookup _ _ _ Hclosed Hl) as [Hprops Hitems].
    simpl in *. destruct c as [|items|f]; intros Hk.
    + by eapply Hprops.
    + apply lookup_union_Some_raw in Hk as [Hk | [_ Hk]].
      * by eapply Hprops.
      * apply index_props_elem in Hk.
        rewrite Forall_forall in Hitems. by apply Hitems.
    + by eapply Hprops.
Qed.

(** From a value of a closed store one only reaches that store, however
    the store is extended. *)
Lemma reach_closed (h added : heap) v l :
  closed h → in_store h v → reach (h ++ added) v l → l < length h.
Proof.
  intros Hclosed Hin Hreach.
  induction Hreach as [l|l o k v l' Hl Hk _ IH|l o items v l' Hl Hcls Hv _ IH];
    simpl in Hin; [done| |].
  - apply IH. rewrite lookup_app_l in Hl by done.
    destruct (closed_lookup _ _ _ Hclosed Hl) as [Hprops _].
    by eapply Hprops.
  - apply IH. rewrite lookup_app_l in Hl by done.
    destruct (closed_lookup _ _ _ Hclosed Hl) as [_ Hitems].
    rewrite Hcls, Forall_forall in Hitems. by apply Hitems.
Qed.

Lemma agree_in_store (h x y : heap) v :
  closed h → in_store h v → agree_from (h ++ x) (h ++ y) v.
Proof.
  intros Hclosed Hin l Hreach.
  pose proof (reach_closed _ _ _ _ Hclosed Hin Hreach).
  by rewrite !lookup_app_l.
Qed.

(** A fresh ordinary object whose properties all refer into the closed
    store [h] reaches only itself and [h]. *)
Lemma agree_fresh_object (h x y : heap) n ps :
  closed h →
  (h ++ x) !! n = Some (Obj CObject ps) →
  (h ++ y) !! n = Some (Obj CObject ps) →
  map_Forall (fun _ v => in_store h v) ps →
  agree_from (h ++ x) (h ++ y) (VRef n).
Proof.
  intros Hclosed Hx Hy Hps l Hreach.
  inversion Hreach as [|? o k v ? Hn Hk Hv|? o items v ? Hn Hcls]; subst.
  - by rewrite Hx, Hy.
  - rewrite Hx in Hn. injection Hn as <-. simpl in Hk.
    pose proof (reach_closed _ _ _ _ Hclosed (Hps _ _ Hk) Hv).
    by rewrite !lookup_app_l.
  - rewrite Hx in Hn. injection Hn as <-. discriminate.
Qed.

Lemma lookup_last (a b c : heap) (o : object) n :
  n = length (a ++ b ++ c) → (a ++ b ++ c ++ [o]) !! n = Some o.
Proof. intros ->. rewrite !app_assoc. apply lookup_alloc. Qed.

Lemma insert_last (h : heap) (o o' : object) :
  <[length h := o']> (h ++ [o]) = h ++ [o'].
Proof.
  rewrite insert_app_r_alt by lia. by rewrite Nat.sub_diag.
Qed.

Section CopyProperties.
Context `{LocalHost}.

Lemma effective_context_extend (h added : heap) process_env this rt :
  builder_at h this → in_store h rt →
  effective_context (h ++ added) process_env this rt
  = effective_context h process_env this rt.
Proof.
  intros Hb Hrt. unfold effective_context.
  destruct (builder_view_extend h added this Hb) as (_ & -> & _).
  by rewrite own_props_extend.
Qed.

Lemma effective_context_closed h process_env this rt :
  builder_at h this → closed h →
  in_store h process_env → in_store h rt →
  map_Forall (fun _ v => in_store h v)
    (effective_context h process_env this rt).
Proof.
  intros Hb Hclosed Henv Hrt k v.
  rewrite effective_context_lookup.
  destruct (builder_at_fields _ _ Hb)
    as (cs & dv & c & _ & Hc & _ & _ & _ & _ & Hgc).
  destruct (own_props h rt !! k) as [w|] eqn:Hruntime.
  { intros [= <-]. by eapply own_props_closed. }
  destruct (context_of h this !! k) as [w|] eqn:Haccumulated.
  { intros [= <-]. unfold context_of in Haccumulated.
    rewrite Hgc in Haccumulated. by eapply (own_props_closed h (VRef c)). }
  intros Hk. apply lookup_singleton_Some in Hk as [_ <-]. done.
Qed.

(** The store in which the checks run when [evaluate] is called on [h]
    extended by some cells [a]: it depends on [a] only for those cells
    themselves. *)
Lemma context_heap_after (h a : heap) process_env this rt :
  builder_at h this → in_store h rt →
  let filler :=
    match rt with VUndefined => [empty_object] | _ => [] end in
  context_heap (h ++ a) process_env this rt
  = h ++ (a ++ filler
            ++ [Obj CObject (effective_context h process_env this rt)])
  ∧ context_ref (h ++ a) rt = VRef (length (h ++ a ++ filler)).
Proof.
  intros Hb Hrt filler. unfold context_heap, context_ref, evaluate_heap,
    runtime_param.
  destruct (decide (rt = VUndefined)) as [->|Hdef].
  - cbn [default_param alloc fst snd]. unfold filler.
    assert (Hsame :
      effective_context ((h ++ a) ++ [empty_object]) process_env this
        (VRef (length (h ++ a)))
      = effective_context h process_env this VUndefined).
    { unfold effective_context.
      rewrite (own_props_object _ (length (h ++ a)) ∅)
        by apply lookup_alloc.
      rewrite <- app_assoc.
      by destruct (builder_view_extend h (a ++ [empty_object]) this Hb)
        as (_ & -> & _). }
    rewrite Hsame. by rewrite <- !app_assoc.
  - assert (Hparam : ∀ h0, default_param h0 rt empty_object = (h0, rt))
      by (by destruct rt).
    assert (Hfiller : filler = []) by (by destruct rt).
    rewrite Hparam, Hfiller. cbn [fst snd].
    rewrite effective_context_extend by done.
    by rewrite app_nil_l, app_nil_r, <- app_assoc.
Qed.

(** [evaluate] gives the same answer, and adds the same cells, whatever
    objects sit in the cells that were added after the store [h] of the
    builder. *)
Lemma evaluate_beyond (h a b : heap) process_env this rt :
  builder_at h this → closed h →
  in_store h process_env → in_store h rt →
  length a = length b →
  (evaluate (h ++ b) process_env this rt).2
  = (evaluate (h ++ a) process_env this rt).2
  ∧ ∃ added,
      (evaluate (h ++ a) process_env this rt).1 = h ++ (a ++ added)
      ∧ (evaluate (h ++ b) process_env this rt).1 = h ++ (b ++ added).
Proof.
  intros Hb Hclosed Henv Hrt Hab.
  destruct (builder_at_fields _ _ Hb)
    as (cs & dv & c & Hthis & Hc & Hcs & Hlt & Hgcs & Hgdv & Hgc).
  rewrite !evaluate_unfold. cbn [fst snd]. cbv zeta.
  destruct (context_heap_after h a process_env this rt Hb Hrt) as [-> ->].
  destruct (context_heap_after h b process_env this rt Hb Hrt) as [-> ->].
  set (filler := match rt with VUndefined => [empty_object] | _ => [] end).
  set (ctxobj := Obj CObject (effective_context h process_env this rt)).
  split; [|by exists (filler ++ [ctxobj])].
  rewrite !this_get_extend by done. rewrite Hgcs, Hgdv.
  rewrite !array_items_extend by done.
  destruct (array_items h cs) as [items|] eqn:Hitems; [|done].
  assert (Hlen : length (h ++ b ++ filler) = length (h ++ a ++ filler))
    by (rewrite !length_app; lia).
  rewrite Hlen.
  rewrite (evaluate_conditions_agree
             (h ++ a ++ filler ++ [ctxobj])
             (h ++ b ++ filler ++ [ctxobj])); [done| |].
  - (* the conditions are objects of [h] *)
    unfold array_items, class_of in Hitems.
    destruct cs as [| | | | | | |l]; try discriminate.
    destruct (h !! l) as [[k ps]|] eqn:Hl; [|discriminate].
    destruct k as [|items'|f]; try discriminate.
    simpl in Hitems. injection Hitems as ->.
    destruct (closed_lookup _ _ _ Hclosed Hl) as [_ Hin]. simpl in Hin.
    eapply Forall_impl; [exact Hin|].
    intros condition Hcondition. by apply agree_in_store.
  - (* the context object is fresh and refers into [h] *)
    apply (agree_fresh_object h _ _ _
             (effective_context h process_env this rt)); [done| | |].
    + by apply lookup_last.
    + by apply lookup_last.
    + by apply effective_context_closed.
Qed.

(** [getContext] copies the accumulated context of the builder whatever
    has been added to the store since. *)
Lemma getContext_beyond (h a : heap) this :
  builder_at h this →
  getContext (h ++ a) this
  = (h ++ (a ++ [Obj CObject (context_of h this)]),
     Normal (VRef (length (h ++ a))))
  ∧ own_props (h ++ (a ++ [Obj CObject (context_of h this)]))
      (VRef (length (h ++ a)))
    = context_of h this.
Proof.
  intros Hb. unfold getContext. simpl.
  destruct (builder_view_extend h a this Hb) as (_ & -> & _).
  rewrite <- app_assoc. split; [done|].
  apply own_props_object. rewrite app_assoc. apply lookup_alloc.
Qed.

(** Any sequence of looks gives the same observations on two stores that
    differ only in cells added after [h]. *)
Lemma observe_all_beyond (h : heap) this (qs : list query) :
  builder_at h this → closed h →
  Forall (query_in_store h) qs →
  ∀ a b, length a = length b →
    observe_all (h ++ b) this qs = observe_all (h ++ a) this qs.
Proof.
  intros Hb Hclosed Hqs.
  induction Hqs as [|q rest Hq _ IH]; intros a b Hab; [done|].
  simpl. destruct q as [|process_env runtimeContext].
  - destruct (getContext_beyond h a this Hb) as [Ha Hpa].
    destruct (getContext_beyond h b this Hb) as [Hb' Hpb].
    unfold observe. rewrite Ha, Hb'. cbn [fst snd].
    rewrite Hpa, Hpb. f_equal.
    apply IH. rewrite !length_app. simpl. lia.
  - destruct Hq as [Henv Hrt].
    destruct (evaluate_beyond h a b process_env this runtimeContext
                Hb Hclosed Henv Hrt Hab)
      as (Hresult & added & Hsa & Hsb).
    unfold observe. cbn [fst snd]. rewrite Hresult, Hsa, Hsb. f_equal.
    apply IH. rewrite !length_app. lia.
Qed.

End CopyProperties.

Section GetContext.
Context `{LocalHost}.

(** C8. For a builder in a closed store, [getContext] returns a new
    object whose properties equal the accumulated context: the same keys
    with the same values, a reference being copied as a reference (the
    copy is shallow).  Let the caller then change that object in any way:
    add, replace or delete its entries, i.e. put any object [o'] in its
    cell.  The builder is untouched and shows the same accumulated
    context; no other object of the store changes; and every later
    sequence of [getContext] and [evaluate] calls, on environments and
    runtime contexts that were already in the store, shows the caller
    exactly what it shows without the change. *)
Theorem getContext_returns_independent_copy (h : heap) (this : loc) :
  builder_at h this →
  closed h →
  let returned := length h in
  let after := (getContext h this).1 in
  (getContext h this).2 = Normal (VRef returned)
  ∧ own_props after (VRef returned) = context_of h this
  ∧ ∀ o' : object,
      let mutated := <[returned := o']> after in
      builder_at mutated this
      ∧ mutated !! this = h !! this
      ∧ context_of mutated this = context_of h this
      ∧ (∀ l, l ≠ returned → mutated !! l = after !! l)
      ∧ (∀ queries,
           Forall (query_in_store h) queries →
           observe_all mutated this queries
           = observe_all after this queries).
Proof.
  intros Hb Hclosed returned after.
  assert (Hafter : after = h ++ [Obj CObject (context_of h this)])
    by reflexivity.
  split; [done|]. split.
  { rewrite Hafter. apply own_props_object, lookup_alloc. }
  intros o' mutated.
  assert (Hmutated : mutated = h ++ [o']).
  { unfold mutated. rewrite Hafter. apply insert_last. }
  destruct (builder_view_extend h [o'] this Hb) as (Hb' & Hctx & _).
  destruct (builder_at_fields _ _ Hb) as (_ & _ & _ & _ & _ & _ & Hlt & _).
  rewrite Hmutated.
  split; [done|]. split; [by rewrite lookup_app_l|].
  split; [done|]. split.
  { intros l Hl. rewrite Hafter.
    destruct (decide (l < length h)).
    - by rewrite !lookup_app_l.
    - rewrite !lookup_ge_None_2; [done| |];
        rewrite length_app; simpl; unfold returned in Hl; lia. }
  intros queries Hqueries. rewrite Hafter.
  by apply observe_all_beyond.
Qed.

End GetContext.

(** The functions of the sample host read the store only through their
    argument. *)
#[global] Instance sample_host_local : LocalHost (H := sample_host).
Proof.
  split.
  - intros f h h' this arg _ Harg. simpl. unfold sample_call.
    destruct f as [|[|[|[|[|f]]]]]; try done.
    + by rewrite (get_prop_agree _ _ _ _ Harg).
    + rewrite (get_prop_agree _ _ _ _ Harg).
      destruct (get_prop h arg "env") as [env|e] eqn:Henv; simpl; [|done].
      rewrite (get_prop_agree h h' env); [done|].
      eapply agree_from_sub; [exact Harg|].
      intros l. by eapply get_prop_reach.
  - intros f h this arg v l. simpl. unfold sample_call.
    destruct f as [|[|[|[|[|f]]]]]; try done.
    + intros Hthrown. by destruct arg.
    + intros [= <-] Hreach. inversion Hreach.
    + intros Hthrown. exfalso.
      destruct (get_prop h arg "env") as [env|e] eqn:Henv;
        simpl in Hthrown;
        [by destruct env | injection Hthrown as ->; by destruct arg].
  - done.
Qed.

Lemma getContext_returns_independent_copy_witness :
  let copy := (getContext evaluation_store 5).1 in
  let edited :=
    <[18 := Obj CObject {["tier" := VString "premium"]}]> copy in
  let queries :=
    [QEvaluate (VRef 8) VUndefined; QGetContext; QEvaluate (VRef 8) (VRef 7)] in
  own_props copy (VRef 18) = context_of evaluation_store 5
  ∧ context_of edited 5 = context_of evaluation_store 5
  ∧ observe_all (H := sample_host) edited 5 queries
    = observe_all (H := sample_host) copy 5 queries.
Proof.
  cbv zeta.
  assert (Hclosed : closed evaluation_store)
    by (apply (bool_decide_unpack _); vm_compute; exact I).
  destruct (getContext_returns_independent_copy (H := sample_host)
              evaluation_store 5 builder_at_sample Hclosed)
    as (_ & Hequal & Hindependent).
  destruct (Hindependent (Obj CObject {["tier" := VString "premium"]}))
    as (_ & _ & Hcontext & _ & Hqueries).
  split; [exact Hequal|]. split; [exact Hcontext|].
  apply Hqueries. repeat constructor; simpl; lia.
Defined.

(** ** Closedness is kept by every operation

    The store of a running program is closed, and stays so: the objects
    that construction and the methods allocate hold values taken from the
    store or from the arguments. *)

Lemma in_store_extend (h added : heap) v :
  in_store h v → in_store (h ++ added) v.
Proof. destruct v; try done. simpl. rewrite length_app. lia. Qed.

Lemma in_store_length (h h' : heap) v :
  length h = length h' → in_store h v → in_store h' v.
Proof. intros Hlen. destruct v; try done. simpl. lia. Qed.

Lemma closed_object_weaken (h h' : heap) o :
  (∀ v, in_store h v → in_store h' v) →
  closed_object h o → closed_object h' o.
Proof.
  intros Hweaken [Hprops Hitems]. split.
  - intros k v Hk. apply Hweaken. by eapply Hprops.
  - destruct (cls o); [done| |done].
    eapply Forall_impl; [exact Hitems | exact Hweaken].
Qed.

Lemma closed_alloc (h : heap) o :
  closed h → closed_object h o → closed (h ++ [o]).
Proof.
  intros Hclosed Ho. unfold closed. apply Forall_app. split.
  - eapply Forall_impl; [exact Hclosed|]. intros o'.
    apply closed_object_weaken. intros v. apply in_store_extend.
  - apply Forall_singleton. revert Ho.
    apply closed_object_weaken. intros v. apply in_store_extend.
Qed.

Lemma closed_this_set (h : heap) this k v :
  closed h → in_store h v → closed (this_set h this k v).
Proof.
  intros Hclosed Hv. unfold closed. apply Forall_lookup. intros l o Hl.
  assert (Hweaken : ∀ w, in_store h w → in_store (this_set h this k v) w).
  { intros w. apply in_store_length. by rewrite this_set_length. }
  destruct (decide (l = this)) as [->|Hne].
  - unfold this_set in Hl. rewrite list_lookup_alter_eq in Hl.
    destruct (h !! this) as [o0|] eqn:Hthis; [|discriminate].
    simpl in Hl. injection Hl as <-.
    destruct (closed_lookup _ _ _ Hclosed Hthis) as [Hprops Hitems].
    split; simpl.
    + intros k' w Hk'. apply Hweaken.
      destruct (decide (k' = k)) as [->|Hk].
      * rewrite lookup_insert_eq in Hk'. by injection Hk' as <-.
      * rewrite lookup_insert_ne in Hk' by done. by eapply Hprops.
    + destruct (cls o0); [done| |done].
      eapply Forall_impl; [exact Hitems | exact Hweaken].
  - rewrite this_set_lookup_ne in Hl by done.
    eapply closed_object_weaken; [exact Hweaken|].
    by eapply closed_lookup.
Qed.

Lemma own_props_all_closed h v :
  closed h → in_store h v →
  map_Forall (fun _ w => in_store h w) (own_props h v).
Proof. intros Hclosed Hv k w Hk. by eapply own_props_closed. Qed.

Lemma context_of_closed h this :
  builder_at h this → closed h →
  map_Forall (fun _ w => in_store h w) (context_of h this).
Proof.
  intros Hb Hclosed.
  destruct (builder_at_fields _ _ Hb)
    as (cs & dv & c & _ & Hc & _ & _ & _ & _ & Hgc).
  unfold context_of. rewrite Hgc. by apply own_props_all_closed.
Qed.

Lemma map_Forall_union_closed (h : heap) (m1 m2 : gmap string value) :
  map_Forall (fun _ w => in_store h w) m1 →
  map_Forall (fun _ w => in_store h w) m2 →
  map_Forall (fun _ w => in_store h w) (m1 ∪ m2).
Proof.
  intros H1 H2 k w Hk.
  apply lookup_union_Some_raw in Hk as [Hk | [_ Hk]];
    [by eapply H1 | by eapply H2].
Qed.

Lemma closed_empty_object (h : heap) : closed_object h empty_object.
Proof. split; [|done]. simpl. apply map_Forall_empty. Qed.

(** Allocating an ordinary object whose properties refer into the store,
    and making it the builder's [_context], keeps the store closed. *)
Lemma closed_set_fresh_context (h : heap) this ps :
  closed h →
  map_Forall (fun _ w => in_store h w) ps →
  closed (this_set (h ++ [Obj CObject ps]) this "_context" (VRef (length h))).
Proof.
  intros Hclosed Hps. apply closed_this_set.
  - apply closed_alloc; [done|]. by split.
  - simpl. rewrite length_app. simpl. lia.
Qed.

Section ClosedRuns.
Context `{Host}.

Lemma perform_closed h this op :
  builder_at h this → closed h → operation_in_store h op →
  closed (perform h this op).
Proof.
  intros Hb Hclosed Hop.
  destruct op as [ctx| | |process_env runtimeContext]; simpl.
  - rewrite withContext_unfold.
    destruct (decide (ctx = VUndefined)) as [->|Hdef].
    + cbn [default_param alloc fst snd].
      destruct (builder_view_extend h [empty_object] this Hb) as (Hb1 & _).
      assert (Hclosed1 : closed (h ++ [empty_object]))
        by (apply closed_alloc; [done | apply closed_empty_object]).
      destruct (is_record _ _); cbn [fst]; [|done].
      apply closed_set_fresh_context; [done|].
      apply map_Forall_union_closed.
      * apply own_props_all_closed; [done|].
        simpl. rewrite length_app. simpl. lia.
      * by apply context_of_closed.
    + assert (Hparam : default_param h ctx empty_object = (h, ctx))
        by (by destruct ctx).
      rewrite Hparam. cbn [fst snd].
      destruct (is_record h ctx); cbn [fst]; [|done].
      apply closed_set_fresh_context; [done|].
      apply map_Forall_union_closed;
        [by apply own_props_all_closed | by apply context_of_closed].
  - apply closed_set_fresh_context; [done|]. apply map_Forall_empty.
  - apply closed_alloc; [done|]. split; [|done]. simpl.
    by apply context_of_closed.
  - destruct Hop as [Henv Hrt].
    rewrite evaluate_store. unfold context_heap, evaluate_heap, runtime_param.
    destruct (decide (runtimeContext = VUndefined)) as [->|Hdef].
    + cbn [default_param alloc fst snd].
      destruct (builder_view_extend h [empty_object] this Hb) as (Hb1 & _).
      assert (Hclosed1 : closed (h ++ [empty_object]))
        by (apply closed_alloc; [done | apply closed_empty_object]).
      apply closed_alloc; [done|]. split; [|done]. simpl.
      unfold effective_context.
      repeat apply map_Forall_union_closed.
      * apply own_props_all_closed; [done|].
        simpl. rewrite length_app. simpl. lia.
      * by apply context_of_closed.
      * apply map_Forall_singleton. by apply in_store_extend.
    + assert (Hparam : default_param h runtimeContext empty_object
                       = (h, runtimeContext))
        by (by destruct runtimeContext).
      rewrite Hparam. cbn [fst snd].
      apply closed_alloc; [done|]. split; [|done]. simpl.
      unfold effective_context.
      repeat apply map_Forall_union_closed.
      * by apply own_props_all_closed.
      * by apply context_of_closed.
      * by apply map_Forall_singleton.
Qed.

End ClosedRuns.

(** ** What construction establishes *)

Lemma check_condition_inv h i condition :
  check_condition h i condition = Normal () → accepted h condition.
Proof.
  unfold check_condition, accepted, is_object, has_property.
  destruct (truthy condition); simpl; [|discriminate].
  destruct (bool_decide (typeof h condition = "object")); simpl;
    [|discriminate].
  destruct (bool_decide (is_Some (own_props h condition !! "check")))
    eqn:Hcheck; simpl; [|discriminate].
  destruct (bool_decide (is_Some (own_props h condition !! "name")))
    eqn:Hname; simpl; [|discriminate].
  intros _. split; [done|].
  split; by eapply bool_decide_eq_true_1.
Qed.

Lemma check_conditions_inv h i items :
  check_conditions h i items = Normal () → Forall (accepted h) items.
Proof.
  revert i. induction items as [|condition rest IH]; intros i; simpl;
    [by constructor|].
  destruct (check_condition h i condition) as [[]|e] eqn:Hc; [|discriminate].
  intros Hrest. constructor; [by eapply check_condition_inv | by eapply IH].
Qed.

Lemma accepted_in_store h condition : accepted h condition → in_store h condition.
Proof.
  intros (Hobj & _). apply is_object_true_iff in Hobj as (l & o & -> & Hl & _).
  simpl. by eapply lookup_lt_Some.
Qed.

Lemma accepted_extend (h added : heap) condition :
  accepted h condition → accepted (h ++ added) condition.
Proof.
  intros Hacc. pose proof (accepted_in_store _ _ Hacc) as Hin.
  destruct Hacc as (Hobj & Hcheck & Hname).
  unfold accepted. rewrite own_props_extend by done.
  split; [|done]. apply is_object_true_iff in Hobj as (l & o & -> & Hl & Hcls).
  apply is_object_true_iff. exists l, o.
  split; [done|]. split; [by apply lookup_app_l_Some | done].
Qed.

(** A builder returned by [createEnvironmentNameBuilder] is a builder in
    the sense of [builder_at]: its [conditions] is an array of accepted
    conditions and its accumulated context is empty. *)
Lemma construction_gives_builder h conditions defaultValue h' this :
  createEnvironmentNameBuilder h conditions defaultValue
    = (h', Normal (VRef this)) →
  builder_at h' this
  ∧ context_of h' this = ∅
  ∧ ∃ items,
      array_items h' (this_get h' this "conditions") = Some items
      ∧ Forall (accepted h') items.
Proof.
  rewrite createEnvironmentNameBuilder_unfold. cbv zeta.
  set (h1 := entry_heap h conditions defaultValue).
  set (cs := conditions_param h conditions).
  set (dv := defaultValue_param h conditions defaultValue).
  destruct (array_items h1 cs) as [items|] eqn:Hitems; [|discriminate].
  destruct (check_conditions h1 0 items) as [[]|e] eqn:Hcheck;
    [|discriminate].
  intros [= <- <-].
  destruct (builder_object_fields h1 cs dv) as (Hctx & Hcs & Hdv).
  assert (Hin : in_store h1 cs).
  { unfold array_items, class_of in Hitems.
    destruct cs as [| | | | | | |a]; try discriminate.
    destruct (h1 !! a) eqn:Ha; [|discriminate].
    simpl. by eapply lookup_lt_Some. }
  split; [|split; [done|]].
  - exists cs, dv, (length h1). split; [apply lookup_alloc|].
    rewrite !length_app. simpl. split; [lia|].
    apply (in_store_length ((h1 ++ [empty_object]) ++ [empty_object]));
      [by rewrite !length_app|].
    rewrite <- app_assoc. by apply in_store_extend.
  - exists items. rewrite Hcs. rewrite <- app_assoc.
    rewrite array_items_extend by done. split; [done|].
    eapply Forall_impl; [by eapply check_conditions_inv|].
    intros condition. apply accepted_extend.
Qed.

Lemma construction_closed h conditions defaultValue :
  closed h → in_store h conditions → in_store h defaultValue →
  closed (createEnvironmentNameBuilder h conditions defaultValue).1.
Proof.
  intros Hclosed Hcs Hdv.
  assert (Harray : ∀ h0, closed_object h0 empty_array).
  { intros h0. split; [apply map_Forall_empty | by constructor]. }
  assert (H1 : closed (entry_heap h conditions defaultValue)
               ∧ in_store (entry_heap h conditions defaultValue)
                   (conditions_param h conditions)
               ∧ in_store (entry_heap h conditions defaultValue)
                   (defaultValue_param h conditions defaultValue)).
  { unfold entry_heap, conditions_param, defaultValue_param.
    destruct (decide (conditions = VUndefined)) as [->|Hc];
      destruct (decide (defaultValue = VUndefined)) as [->|Hd];
      cbn [default_param alloc fst snd].
    - split; [by repeat apply closed_alloc|].
      simpl. rewrite !length_app. simpl. lia.
    - assert (Hparam : ∀ h0, default_param h0 defaultValue empty_array
                             = (h0, defaultValue)) by (by destruct defaultValue).
      rewrite Hparam. cbn [fst snd].
      split; [by apply closed_alloc|].
      split; [simpl; rewrite length_app; simpl; lia|].
      by apply in_store_extend.
    - assert (Hparam : ∀ h0, default_param h0 conditions empty_array
                             = (h0, conditions)) by (by destruct conditions).
      rewrite !Hparam. cbn [default_param alloc fst snd].
      split; [by apply closed_alloc|].
      split; [by apply in_store_extend|].
      simpl. rewrite length_app. simpl. lia.
    - assert (Hparam : ∀ h0, default_param h0 conditions empty_array
                             = (h0, conditions)) by (by destruct conditions).
      assert (Hparam' : ∀ h0, default_param h0 defaultValue empty_array
                              = (h0, defaultValue)) by (by destruct defaultValue).
      by rewrite !Hparam, !Hparam'. }
  destruct H1 as (Hclosed1 & Hcs1 & Hdv1).
  rewrite createEnvironmentNameBuilder_unfold. cbv zeta.
  destruct (array_items _ _) as [items|]; [|done].
  destruct (check_conditions _ _ _) as [[]|e]; [|done].
  cbn [fst]. apply closed_alloc.
  - apply closed_alloc; [done | apply closed_empty_object].
  - split; [|done]. simpl. intros k v Hk.
    apply lookup_insert_Some in Hk as [[_ <-]|[_ Hk]];
      [by apply in_store_extend|].
    apply lookup_insert_Some in Hk as [[_ <-]|[_ Hk]];
      [by apply in_store_extend|].
    apply lookup_singleton_Some in Hk as [_ <-].
    simpl. rewrite length_app. simpl. lia.
Qed.

(** ** The scenarios of the test suite, run on the model *)

Section Scenarios.
#[local] Existing Instance sample_host.

(** [construct([{check: true, name: 'a'}, {check: false, name: 'b'}])
    .evaluate()] is [[[true, 'a']]]. *)
Example scenario_static_checks :
  (chain (createEnvironmentNameBuilder scenario_store (VRef 2) VUndefined)
     (fun h this => evaluate h (VRef 18) this VUndefined)).2
  = Normal (Matches [(true, VString "a")]).
Proof. computed. Qed.

(** [construct([], D).evaluate()] is [D] itself. *)
Example scenario_default_value :
  (chain (createEnvironmentNameBuilder scenario_store (VRef 3) (VRef 4))
     (fun h this => evaluate h (VRef 18) this VUndefined)).2
  = Normal (Fallback (VRef 4)).
Proof. computed. Qed.

(** [construct([{check: ctx => ctx.tier === 'premium', name: 'p'}])
    .withContext({tier: 'basic'}).evaluate({tier: 'premium'})] is
    [[[true, 'p']]], while [.evaluate()] falls back to the default. *)
Example scenario_runtime_overrides_accumulated :
  let builder :=
    chain (createEnvironmentNameBuilder scenario_store (VRef 7) (VRef 4))
      (fun h this => withContext h this (VRef 8)) in
  (chain builder (fun h this => evaluate h (VRef 18) this (VRef 9))).2
  = Normal (Matches [(true, VString "p")])
  ∧ (chain builder (fun h this => evaluate h (VRef 18) this VUndefined)).2
    = Normal (Fallback (VRef 4)).
Proof. split; computed. Qed.

(** A check that throws makes [evaluate] throw, with the name of the
    condition and the message of the failure. *)
Example scenario_check_throws :
  (chain (createEnvironmentNameBuilder scenario_store (VRef 12) VUndefined)
     (fun h this => evaluate h (VRef 18) this VUndefined)).2
  = Throw (JsError "Error evaluating condition 'x': Test error").
Proof. computed. Qed.

(** [construct([{name: 'only-name'}])] fails, naming index 0 and [check]. *)
Example scenario_missing_check :
  (createEnvironmentNameBuilder scenario_store (VRef 14) VUndefined).2
  = Throw (JsError "Condition at index 0 missing required property 'check'").
Proof. computed. Qed.

(** Two conditions of the same name give two entries. *)
Example scenario_duplicate_names :
  (chain (createEnvironmentNameBuilder scenario_store (VRef 17) VUndefined)
     (fun h this => evaluate h (VRef 18) this VUndefined)).2
  = Normal (Matches [(true, VString "d"); (true, VString "d")]).
Proof. computed. Qed.

(** [withContext], [resetContext], [withContext] again: the builder
    reads the context given last. *)
Example scenario_reset_between_contexts :
  let builder :=
    chain
      (chain
         (chain (createEnvironmentNameBuilder scenario_store (VRef 7) (VRef 4))
            (fun h this => withContext h this (VRef 9)))
         resetContext)
      (fun h this => withContext h this (VRef 8)) in
  (chain builder (fun h this => evaluate h (VRef 18) this VUndefined)).2
  = Normal (Fallback (VRef 4)).
Proof. computed. Qed.

End Scenarios.

(* ================================================================== *)
(** * Further properties of the code *)
(* ================================================================== *)

(** ** Construction: what a result says about the argument *)

Lemma default_param_extends (h : heap) arg dflt :
  ∃ added, (default_param h arg dflt).1 = h ++ added.
Proof.
  destruct arg; simpl;
    first [by exists [dflt] | exists []; by rewrite app_nil_r].
Qed.

Lemma entry_heap_extends h conditions defaultValue :
  ∃ added, entry_heap h conditions defaultValue = h ++ added.
Proof.
  unfold entry_heap.
  destruct (default_param_extends h conditions empty_array) as [a ->].
  destruct (default_param_extends (h ++ a) defaultValue empty_array)
    as [b ->].
  exists (a ++ b). by rewrite app_assoc.
Qed.

Lemma construction_extends h conditions defaultValue :
  ∃ added,
    (createEnvironmentNameBuilder h conditions defaultValue).1 = h ++ added.
Proof.
  rewrite createEnvironmentNameBuilder_unfold. cbv zeta.
  destruct (entry_heap_extends h conditions defaultValue) as [a ->].
  destruct (array_items _ _) as [items|]; [|by exists a].
  destruct (check_conditions _ _ _) as [[]|e]; [|by exists a].
  cbn [fst]. exists (a ++ [empty_object]
                      ++ [builder_object (conditions_param h conditions)
                            (defaultValue_param h conditions defaultValue)
                            (VRef (length (h ++ a)))]).
  by rewrite <- !app_assoc.
Qed.

(** A failing test tells which one failed, and on what. *)
Lemma check_condition_throw_inv h i condition e :
  check_condition h i condition = Throw e →
  ¬ accepted h condition
  ∧ (e = must_be_an_object i ∧ is_object h condition = false
     ∨ e = missing_property i "check"
       ∧ is_object h condition = true
       ∧ own_props h condition !! "check" = None
     ∨ e = missing_property i "name"
       ∧ is_object h condition = true
       ∧ is_Some (own_props h condition !! "check")
       ∧ own_props h condition !! "name" = None).
Proof.
  unfold check_condition, accepted, is_object, has_property.
  destruct (truthy condition); simpl.
  2: { intros [= <-]. split; [by intros (? & _)|]. by left. }
  destruct (bool_decide (typeof h condition = "object")); simpl.
  2: { intros [= <-]. split; [by intros (? & _)|]. by left. }
  destruct (bool_decide (is_Some (own_props h condition !! "check")))
    eqn:Hcheck; simpl.
  2: { intros [= <-]. apply bool_decide_eq_false_1 in Hcheck.
       split; [by intros (_ & ? & _)|]. right. left.
       split; [done|]. split; [done|].
       by apply eq_None_not_Some. }
  apply bool_decide_eq_true_1 in Hcheck.
  destruct (bool_decide (is_Some (own_props h condition !! "name")))
    eqn:Hname; simpl; [discriminate|].
  intros [= <-]. apply bool_decide_eq_false_1 in Hname.
  split; [by intros (_ & _ & ?)|]. right. right.
  split; [done|]. split; [done|]. split; [done|].
  by apply eq_None_not_Some.
Qed.

Lemma check_conditions_throw_inv h i items e :
  check_conditions h i items = Throw e →
  ∃ pre condition post,
    items = pre ++ condition :: post
    ∧ Forall (accepted h) pre
    ∧ check_condition h (i + length pre) condition = Throw e.
Proof.
  revert i. induction items as [|c rest IH]; intros i; simpl; [done|].
  destruct (check_condition h i c) as [[]|e'] eqn:Hc.
  - intros Hrest.
    destruct (IH _ Hrest) as (pre & condition & post & -> & Hpre & Hfail).
    exists (c :: pre), condition, post. split; [done|].
    split; [constructor; [by eapply check_condition_inv | done]|].
    simpl. by replace (i + S (length pre)) with (S i + length pre) by lia.
  - intros [= ->]. exists [], c, rest. simpl.
    by rewrite Nat.add_0_r.
Qed.

(** X1. Whatever [createEnvironmentNameBuilder] returns is a builder, and
    its argument was then an array of objects that each have [check] and
    [name]: validation lets nothing else through.  The builder holds the
    very array and default value it was given (no copy is made), starts
    with an empty accumulated context, and is a new object, as is its
    context: both lie beyond the store the call started in. *)
Theorem construction_returns_only_validated
    (h : heap) (conditions defaultValue : value) (h' : heap) (v : value) :
  createEnvironmentNameBuilder h conditions defaultValue = (h', Normal v) →
  ∃ this context items,
    v = VRef this
    ∧ builder_at h' this
    ∧ context_of h' this = ∅
    ∧ this_get h' this "conditions" = conditions_param h conditions
    ∧ this_get h' this "defaultValue"
      = defaultValue_param h conditions defaultValue
    ∧ array_items h' (conditions_param h conditions) = Some items
    ∧ Forall (accepted h') items
    ∧ this_get h' this "_context" = VRef context
    ∧ length h ≤ context < this.
Proof.
  intros Hbuilt.
  assert (∃ this, v = VRef this) as [this ->].
  { revert Hbuilt. rewrite createEnvironmentNameBuilder_unfold. cbv zeta.
    destruct (array_items _ _) as [items|]; [|discriminate].
    destruct (check_conditions _ _ _) as [[]|e]; [|discriminate].
    intros [= _ <-]. by eexists. }
  destruct (construction_gives_builder _ _ _ _ _ Hbuilt)
    as (Hb & Hctx & items & Hitems & Hall).
  revert Hbuilt Hb Hctx Hitems Hall.
  rewrite createEnvironmentNameBuilder_unfold. cbv zeta.
  set (h1 := entry_heap h conditions defaultValue).
  set (cs := conditions_param h conditions).
  set (dv := defaultValue_param h conditions defaultValue).
  destruct (array_items h1 cs) as [items'|]; [|discriminate].
  destruct (check_conditions h1 0 items') as [[]|e]; [|discriminate].
  intros [= <- <-] Hb Hctx Hitems Hall.
  destruct (builder_object_fields h1 cs dv) as (_ & Hcs & Hdv).
  cbv zeta in Hcs, Hdv.
  assert (Hcell : ((h1 ++ [empty_object])
                     ++ [builder_object cs dv (VRef (length h1))])
                    !! length (h1 ++ [empty_object])
                  = Some (builder_object cs dv (VRef (length h1))))
    by apply lookup_alloc.
  destruct (builder_cell_fields _ _ _ _ _ Hcell) as (_ & _ & Hgc).
  exists (length (h1 ++ [empty_object])), (length h1), items.
  split; [done|]. split; [done|]. split; [done|].
  split; [done|]. split; [done|].
  rewrite Hcs in Hitems.
  split; [done|]. split; [done|]. split; [done|].
  destruct (entry_heap_extends h conditions defaultValue) as [a Ha].
  fold h1 in Ha. rewrite !length_app, Ha, length_app. simpl. lia.
Qed.

Lemma construction_returns_only_validated_witness :
  ∃ this context items,
    VRef 12 = VRef this
    ∧ builder_at
        (createEnvironmentNameBuilder construction_store (VRef 6) (VRef 5)).1
        this
    ∧ context_of
        (createEnvironmentNameBuilder construction_store (VRef 6) (VRef 5)).1
        this = ∅
    ∧ this_get
        (createEnvironmentNameBuilder construction_store (VRef 6) (VRef 5)).1
        this "conditions"
      = conditions_param construction_store (VRef 6)
    ∧ this_get
        (createEnvironmentNameBuilder construction_store (VRef 6) (VRef 5)).1
        this "defaultValue"
      = defaultValue_param construction_store (VRef 6) (VRef 5)
    ∧ array_items
        (createEnvironmentNameBuilder construction_store (VRef 6) (VRef 5)).1
        (conditions_param construction_store (VRef 6)) = Some items
    ∧ Forall
        (accepted
           (createEnvironmentNameBuilder construction_store
              (VRef 6) (VRef 5)).1) items
    ∧ this_get
        (createEnvironmentNameBuilder construction_store (VRef 6) (VRef 5)).1
        this "_context" = VRef context
    ∧ length construction_store ≤ context < this.
Proof.
  exact (construction_returns_only_validated construction_store
           (VRef 6) (VRef 5) _ (VRef 12) ltac:(computed)).
Defined.

(** X2. When [createEnvironmentNameBuilder] throws, the error is one of the
    four of lines 17-30 and nothing else: either the argument is not an
    array, or the error carries the index of the first element that is
    not accepted, every element before it being accepted, and names the
    first of the three tests that this element fails. *)
Theorem construction_error_names_first_offender
    (h : heap) (conditions defaultValue : value) (e : exn) :
  let h1 := entry_heap h conditions defaultValue in
  let cs := conditions_param h conditions in
  (createEnvironmentNameBuilder h conditions defaultValue).2 = Throw e →
  (array_items h1 cs = None ∧ e = JsError "Conditions must be an array")
  ∨ ∃ pre condition post,
      array_items h1 cs = Some (pre ++ condition :: post)
      ∧ Forall (accepted h1) pre
      ∧ ¬ accepted h1 condition
      ∧ (e = must_be_an_object (length pre)
           ∧ is_object h1 condition = false
         ∨ e = missing_property (length pre) "check"
           ∧ is_object h1 condition = true
           ∧ own_props h1 condition !! "check" = None
         ∨ e = missing_property (length pre) "name"
           ∧ is_object h1 condition = true
           ∧ is_Some (own_props h1 condition !! "check")
           ∧ own_props h1 condition !! "name" = None).
Proof.
  intros h1 cs. rewrite createEnvironmentNameBuilder_unfold. cbv zeta.
  fold h1 cs.
  destruct (array_items h1 cs) as [items|] eqn:Hitems.
  2: { intros [= <-]. by left. }
  destruct (check_conditions h1 0 items) as [[]|e'] eqn:Hcheck;
    [discriminate|].
  intros [= ->]. right.
  destruct (check_conditions_throw_inv _ _ _ _ Hcheck)
    as (pre & condition & post & -> & Hpre & Hfail).
  simpl in Hfail.
  destruct (check_condition_throw_inv _ _ _ _ Hfail) as [Hnot Hwhich].
  by exists pre, condition, post.
Qed.

Lemma construction_error_names_first_offender_witness :
  (array_items (entry_heap construction_store (VRef 8) VUndefined)
     (conditions_param construction_store (VRef 8)) = None
   ∧ missing_property 2 "name" = JsError "Conditions must be an array")
  ∨ ∃ pre condition post,
      array_items (entry_heap construction_store (VRef 8) VUndefined)
        (conditions_param construction_store (VRef 8))
      = Some (pre ++ condition :: post)
      ∧ Forall (accepted (entry_heap construction_store (VRef 8) VUndefined))
          pre
      ∧ ¬ accepted (entry_heap construction_store (VRef 8) VUndefined)
            condition
      ∧ (missing_property 2 "name" = must_be_an_object (length pre)
           ∧ is_object (entry_heap construction_store (VRef 8) VUndefined)
               condition = false
         ∨ missing_property 2 "name" = missing_property (length pre) "check"
           ∧ is_object (entry_heap construction_store (VRef 8) VUndefined)
               condition = true
           ∧ own_props (entry_heap construction_store (VRef 8) VUndefined)
               condition !! "check" = None
         ∨ missing_property 2 "name" = missing_property (length pre) "name"
           ∧ is_object (entry_heap construction_store (VRef 8) VUndefined)
               condition = true
           ∧ is_Some
               (own_props (entry_heap construction_store (VRef 8) VUndefined)
                  condition !! "check")
           ∧ own_props (entry_heap construction_store (VRef 8) VUndefined)
               condition !! "name" = None).
Proof.
  exact (construction_error_names_first_offender construction_store
           (VRef 8) VUndefined (missing_property 2 "name") ltac:(computed)).
Defined.

(** ** Builders do not share their accumulated context *)

(** An object other than the one an operation works on, itself a
    builder whose context object is not that one, reads the same after
    the operation. *)
Lemma builder_framed (h after : heap) this other :
  builder_at h other →
  other ≠ this →
  this_get h other "_context" ≠ VRef this →
  this < length after →
  (∀ l o, l ≠ this → h !! l = Some o → after !! l = Some o) →
  builder_at after other
  ∧ context_of after other = context_of h other
  ∧ this_get after other "conditions" = this_get h other "conditions"
  ∧ this_get after other "defaultValue" = this_get h other "defaultValue"
  ∧ this_get after other "_context" = this_get h other "_context".
Proof.
  intros Hb Hne Hctx Hlt Hframe.
  destruct (builder_at_fields _ _ Hb)
    as (cs & dv & c & Hcell & Hc & Hcs & _ & Hgcs & Hgdv & Hgc).
  assert (Hcell' : after !! other = Some (builder_object cs dv (VRef c)))
    by (by apply Hframe).
  destruct (builder_cell_fields _ _ _ _ _ Hcell') as (Hgcs' & Hgdv' & Hgc').
  assert (Hc_ne : c ≠ this) by (intros ->; by rewrite Hgc in Hctx).
  destruct (lookup_lt_is_Some_2 h c Hc) as [oc Hoc].
  pose proof (Hframe c oc Hc_ne Hoc) as Hoc'.
  split; [|split; [|split; [|split]]]; try congruence.
  - exists cs, dv, c. split; [done|].
    split; [by eapply lookup_lt_Some|].
    destruct cs as [| | | | | | |x]; try done. simpl in *.
    destruct (decide (x = this)) as [->|Hx]; [done|].
    destruct (lookup_lt_is_Some_2 h x Hcs) as [ox Hox].
    eapply lookup_lt_Some. by apply Hframe.
  - unfold context_of. rewrite Hgc, Hgc'. unfold own_props.
    by rewrite Hoc, Hoc'.
Qed.

Lemma builder_at_lt (h : heap) this : builder_at h this → this < length h.
Proof.
  intros Hb.
  by destruct (builder_at_fields _ _ Hb) as (? & ? & ? & ? & ? & ? & ? & _).
Qed.

Lemma this_set_context_location (h : heap) this v :
  builder_at h this →
  this_get (this_set h this "_context" v) this "_context" = v.
Proof.
  intros Hb.
  destruct (builder_at_fields _ _ Hb) as (cs & dv & c & Hcell & _).
  rewrite (this_get_object _ this
             (<["_context" := v]> (props (builder_object cs dv (VRef c))))).
  - by rewrite lookup_insert_eq.
  - by apply this_set_lookup.
Qed.

Section Separation.
Context `{Host}.

(** After an operation the builder's [_context] is the object it was,
    or one allocated by the operation. *)
Lemma perform_context_location h this op :
  builder_at h this →
  let after := perform h this op in
  this_get after this "_context" = this_get h this "_context"
  ∨ ∃ c : loc,
      this_get after this "_context" = VRef c ∧ (length h ≤ c)%nat.
Proof.
  intros Hb after. unfold after.
  destruct op as [ctx| | |process_env runtimeContext]; simpl.
  - rewrite withContext_unfold. cbv zeta.
    destruct (default_param_extends h ctx empty_object) as [a Ha].
    destruct (default_param h ctx empty_object) as [h1 ctx1].
    simpl in Ha. subst h1. cbn [fst snd].
    destruct (builder_view_extend h a this Hb) as (Hb1 & _).
    destruct (is_record (h ++ a) ctx1); cbn [fst].
    + right. exists (length (h ++ a)).
      split; [|rewrite length_app; lia].
      apply this_set_context_location.
      by apply (builder_view_extend (h ++ a) [_] this).
    + left. apply this_get_extend. by apply builder_at_lt.
  - right. exists (length h). split; [|done].
    apply this_set_context_location.
    by apply (builder_view_extend h [_] this).
  - left. apply this_get_extend. by apply builder_at_lt.
  - left. rewrite evaluate_store.
    destruct (context_heap_extends h process_env this runtimeContext)
      as [added ->].
    apply this_get_extend. by apply builder_at_lt.
Qed.

(** X4. Instance isolation.  For two separate builders, an operation on one
    of them (whichever operation, with whichever arguments) leaves the
    other exactly as it was: the same accumulated context, the same
    condition list, the same default value.  The two are still separate
    afterwards, so this holds along any interleaving of operations on
    the two. *)
Theorem operation_leaves_other_builder
    (h : heap) (this other : loc) (op : operation) :
  separate_builders h this other →
  let after := perform h this op in
  separate_builders after this other
  ∧ context_of after other = context_of h other
  ∧ this_get after other "conditions" = this_get h other "conditions"
  ∧ this_get after other "defaultValue" = this_get h other "defaultValue".
Proof.
  intros (Hthis & Hother & Hne & Hct & Hco) after.
  destruct (perform_spec h this op Hthis)
    as (Hthis' & _ & _ & Hframe & _ & _).
  fold after in Hthis', Hframe.
  assert (Hlt : this < length after) by (by apply builder_at_lt).
  destruct (builder_framed h after this other Hother
              ltac:(congruence) Hco Hlt Hframe)
    as (Hother' & Hctx & Hcs & Hdv & Hloc).
  split; [|done].
  split; [done|]. split; [done|]. split; [done|].
  split; [|by rewrite Hloc].
  pose proof (perform_context_location h this op Hthis) as Hwhere.
  cbv zeta in Hwhere. fold after in Hwhere.
  destruct Hwhere as [Hsame | (c & Hc & Hfresh)].
  - by rewrite Hsame.
  - rewrite Hc. intros [= ->].
    pose proof (builder_at_lt _ _ Hother). lia.
Qed.

End Separation.

Lemma separate_builders_sample : separate_builders evaluation_store 5 11.
Proof.
  split; [exact builder_at_sample|].
  split.
  { exists (VRef 10), (VString "fallback"), 12.
    split; [reflexivity|]. split; simpl; lia. }
  split; [lia|]. split; vm_compute; discriminate.
Defined.

Lemma operation_leaves_other_builder_witness :
  separate_builders
    (perform (H := sample_host) evaluation_store 5 (OpWithContext (VRef 7)))
    5 11
  ∧ context_of
      (perform (H := sample_host) evaluation_store 5 (OpWithContext (VRef 7)))
      11
    = context_of evaluation_store 11
  ∧ this_get
      (perform (H := sample_host) evaluation_store 5 (OpWithContext (VRef 7)))
      11 "conditions"
    = this_get evaluation_store 11 "conditions"
  ∧ this_get
      (perform (H := sample_host) evaluation_store 5 (OpWithContext (VRef 7)))
      11 "defaultValue"
    = this_get evaluation_store 11 "defaultValue".
Proof.
  exact (operation_leaves_other_builder (H := sample_host)
           evaluation_store 5 11 (OpWithContext (VRef 7))
           separate_builders_sample).
Defined.

(** X3. Every call of [createEnvironmentNameBuilder] changes no object that
    was there before, whether it returns or throws; and the builder it
    returns is separate from every builder that was there, also from one
    built on the same conditions array, which it leaves as it was. *)
Theorem construction_gives_separate_builder
    (h : heap) (conditions defaultValue : value) :
  let built := createEnvironmentNameBuilder h conditions defaultValue in
  (∃ added, built.1 = h ++ added)
  ∧ ∀ this other,
      built.2 = Normal (VRef this) →
      builder_at h other →
      separate_builders built.1 this other
      ∧ context_of built.1 other = context_of h other
      ∧ this_get built.1 other "conditions" = this_get h other "conditions"
      ∧ this_get built.1 other "defaultValue"
        = this_get h other "defaultValue".
Proof.
  intros built.
  destruct (construction_extends h conditions defaultValue) as [added Hadded].
  fold built in Hadded.
  split; [by exists added|].
  intros this other Hret Hother.
  assert (Hbuilt : createEnvironmentNameBuilder h conditions defaultValue
                   = (built.1, Normal (VRef this))).
  { unfold built in *. by destruct (createEnvironmentNameBuilder _ _ _)
      as [h' r]; simpl in *; subst. }
  destruct (construction_gives_builder _ _ _ _ _ Hbuilt) as (Hthis & _).
  revert Hbuilt. rewrite createEnvironmentNameBuilder_unfold. cbv zeta.
  set (h1 := entry_heap h conditions defaultValue).
  set (cs := conditions_param h conditions).
  set (dv := defaultValue_param h conditions defaultValue).
  destruct (array_items h1 cs) as [items|]; [|discriminate].
  destruct (check_conditions h1 0 items) as [[]|e]; [|discriminate].
  intros [= Hstore Hloc].
  assert (Hcell : built.1 !! this
                  = Some (builder_object cs dv (VRef (length h1)))).
  { rewrite <- Hstore, <- Hloc. apply lookup_alloc. }
  destruct (builder_cell_fields _ _ _ _ _ Hcell) as (_ & _ & Hgc).
  destruct (entry_heap_extends h conditions defaultValue) as [a Ha].
  fold h1 in Ha.
  assert (Hlen : (length h ≤ length h1)%nat)
    by (rewrite Ha, length_app; lia).
  destruct (builder_at_fields _ _ Hother)
    as (cso & dvo & co & _ & Hco & _ & Hlto & _ & _ & Hgco).
  rewrite Hadded in *.
  destruct (builder_view_extend h added other Hother)
    as (Hother' & Hctx & Hcs & _ & Hdv).
  assert (Hthis_len : this = S (length h1)).
  { rewrite <- Hloc, length_app. simpl. lia. }
  split; [|done].
  split; [done|]. split; [done|]. split; [lia|].
  split.
  - rewrite Hgc. intros [= <-]. lia.
  - rewrite this_get_extend by done. rewrite Hgco. intros [= ->]. lia.
Qed.

Lemma construction_gives_separate_builder_witness :
  (∃ added,
     (createEnvironmentNameBuilder evaluation_store (VRef 4) VUndefined).1
     = evaluation_store ++ added)
  ∧ separate_builders
      (createEnvironmentNameBuilder evaluation_store (VRef 4) VUndefined).1
      20 5
  ∧ context_of
      (createEnvironmentNameBuilder evaluation_store (VRef 4) VUndefined).1 5
    = context_of evaluation_store 5.
Proof.
  destruct (construction_gives_separate_builder evaluation_store
              (VRef 4) VUndefined) as [Hext Hsep].
  split; [exact Hext|].
  destruct (Hsep 20 5 ltac:(computed) builder_at_sample)
    as (Hseparate & Hctx & _).
  split; [exact Hseparate | exact Hctx].
Defined.

(** ** Evaluation: what a result says about the checks *)

Lemma typeof_extend (h added : heap) v :
  in_store h v → typeof (h ++ added) v = typeof h v.
Proof.
  destruct v; try done. simpl. intros Hl. by rewrite lookup_app_l.
Qed.

Section EvaluateOutcomes.
Context `{Host}.

(** The [catch] clause always ends in a [throw]. *)
Lemma evaluation_error_throws h condition error :
  ∃ e, evaluation_error h condition error = Throw e.
Proof.
  unfold evaluation_error.
  destruct (get_prop h condition "name") as [name|e]; simpl; [|by eexists].
  destruct (ToString h name) as [shown|e]; simpl; [|by eexists].
  destruct (exn_message h error) as [message|e]; simpl; [|by eexists].
  destruct (ToString h message) as [shown'|e]; simpl; by eexists.
Qed.

(** A condition with a result had a check that yielded a value. *)
Lemma condition_result_inv h ctx condition result :
  condition_result h ctx condition = Normal result →
  ∃ v, check_value h ctx condition = Normal v ∧ result = truthy v.
Proof.
  unfold condition_result, check_value.
  destruct (get_prop h condition "check") as [check|e]; simpl; [|done].
  destruct (bool_decide (typeof h check = "function")).
  - destruct (call_function h check condition ctx) as [returned|error].
    + intros [= <-]. by eexists.
    + destruct (evaluation_error_throws h condition error) as [e ->]. done.
  - intros [= <-]. by eexists.
Qed.

Lemma evaluate_conditions_inv h ctx conditions matches result :
  evaluate_conditions h ctx conditions matches = Normal result →
  Forall (returns h ctx) conditions.
Proof.
  revert matches.
  induction conditions as [|condition rest IH]; intros matches; simpl;
    [by constructor|].
  destruct (condition_result h ctx condition) as [b|e] eqn:Hresult;
    simpl; [|done].
  destruct (condition_result_inv _ _ _ _ Hresult) as (v & Hv & _).
  intros Hrest. constructor; [by exists v|].
  destruct b; [|by eapply IH].
  destruct (get_prop h condition "name"); simpl in Hrest; [|done].
  by eapply IH.
Qed.

(** X9. Whenever [evaluate] returns, no check raised, and the result has
    one of two shapes.  Either it is the stored default value, and then
    no check coerced to true; or it is a list of matches that is not
    empty and no longer than the condition list, each entry being
    [(true, name)] for the name of a condition of the list whose check
    coerced to true.  An empty list of matches is never returned. *)
Theorem evaluate_result_shape
    (h : heap) (process_env : value) (this : loc)
    (runtimeContext : value) (conditions : list value) (result : outcome) :
  let h2 := context_heap h process_env this runtimeContext in
  let ctx := context_ref h runtimeContext in
  array_items h2 (this_get h2 this "conditions") = Some conditions →
  (evaluate h process_env this runtimeContext).2 = Normal result →
  Forall (returns h2 ctx) conditions
  ∧ match result with
    | Fallback v =>
        v = this_get h2 this "defaultValue"
        ∧ Forall (fun condition => holds_by truthy h2 ctx condition = false)
            conditions
    | Matches ms =>
        ms ≠ []
        ∧ (length ms ≤ length conditions)%nat
        ∧ Forall (fun m =>
                    m.1 = true
                    ∧ ∃ condition,
                        condition ∈ conditions
                        ∧ holds_by truthy h2 ctx condition = true
                        ∧ m.2 = name_of h2 condition) ms
    end.
Proof.
  intros h2 ctx Hitems. rewrite evaluate_unfold. cbv zeta. fold h2 ctx.
  cbn [snd]. rewrite Hitems.
  destruct (evaluate_conditions h2 ctx conditions []) as [ms|e] eqn:Hloop;
    simpl; [|done].
  pose proof (evaluate_conditions_inv _ _ _ _ _ Hloop) as Hall.
  rewrite (evaluate_conditions_returns _ _ _ _ Hall) in Hloop.
  simpl in Hloop. injection Hloop as <-.
  intros [= <-]. split; [done|].
  unfold matching_by.
  destruct (List.filter (holds_by truthy h2 ctx) conditions)
    as [|c kept] eqn:Hkept; simpl.
  - split; [done|]. apply Forall_forall. intros c Hc.
    destruct (holds_by truthy h2 ctx c) eqn:Hholds; [|done].
    assert (Hin : In c (List.filter (holds_by truthy h2 ctx) conditions)).
    { apply filter_In. split; [by apply list_elem_of_In | done]. }
    rewrite Hkept in Hin. destruct Hin.
  - split; [done|]. split.
    + pose proof (List.filter_length_le (holds_by truthy h2 ctx) conditions)
        as Hle.
      rewrite Hkept in Hle. simpl in Hle. by rewrite length_fmap.
    + assert (Hsub : ∀ x, x ∈ c :: kept →
                      x ∈ conditions ∧ holds_by truthy h2 ctx x = true).
      { intros x Hx. apply list_elem_of_In in Hx. rewrite <- Hkept in Hx.
        apply filter_In in Hx as [Hx Hholds].
        split; [by apply list_elem_of_In | done]. }
      constructor.
      * split; [done|]. exists c. simpl.
        destruct (Hsub c) as [? ?]; [by left | done].
      * apply Forall_fmap, Forall_forall. intros x Hx. simpl.
        split; [done|]. exists x.
        destruct (Hsub x) as [? ?]; [by right | done].
Qed.

(** A condition whose [check] is static yields [!!check] whatever the
    context object, and allocation does not change that. *)
Lemma condition_result_static (h added : heap) ctx condition :
  accepted h condition →
  static_check h condition →
  condition_result (h ++ added) ctx condition
    = Normal (static_holds h condition)
  ∧ get_prop (h ++ added) condition "name"
    = Normal (default VUndefined (own_props h condition !! "name")).
Proof.
  intros Hacc (check & Hcheck & Hin & Htype).
  pose proof (accepted_in_store _ _ Hacc) as Hstore.
  destruct Hacc as (Hobj & _).
  apply is_object_true_iff in Hobj as (l & o & -> & Hl & _).
  unfold condition_result, static_holds, get_prop.
  rewrite own_props_extend by done. rewrite Hcheck. simpl.
  rewrite typeof_extend by done.
  by rewrite bool_decide_eq_false_2 by done.
Qed.

Lemma evaluate_conditions_static (h added : heap) ctx conditions matches :
  Forall (accepted h) conditions →
  Forall (static_check h) conditions →
  evaluate_conditions (h ++ added) ctx conditions matches
  = Normal
      (matches
         ++ ((fun condition =>
                (true, default VUndefined (own_props h condition !! "name")))
               <$> List.filter (static_holds h) conditions)).
Proof.
  intros Hacc. revert matches.
  induction Hacc as [|c rest Hc _ IH]; intros matches Hstatic; simpl.
  - by rewrite app_nil_r.
  - apply Forall_cons in Hstatic as [Hs Hrest].
    destruct (condition_result_static h added ctx c Hc Hs) as [-> Hname].
    simpl. destruct (static_holds h c); simpl; [|by apply IH].
    rewrite Hname. simpl. rewrite IH by done. by rewrite <- app_assoc.
Qed.

(** X13. Static conditions.  If no [check] of the condition list is a
    function, [evaluate] never throws and its result is the same for
    every environment and every runtime context, and does not depend on
    what the builder has accumulated: it is read off the conditions and
    the default value alone. *)
Theorem static_conditions_ignore_context
    (h : heap) (this : loc) (conditions : list value)
    (process_env runtimeContext : value) :
  builder_at h this →
  array_items h (this_get h this "conditions") = Some conditions →
  Forall (accepted h) conditions →
  Forall (static_check h) conditions →
  (evaluate h process_env this runtimeContext).2
  = Normal (static_outcome h this conditions).
Proof.
  intros Hb Hitems Hacc Hstatic.
  rewrite evaluate_unfold. cbv zeta. cbn [snd].
  destruct (context_heap_extends h process_env this runtimeContext)
    as [added ->].
  destruct (builder_view_extend h added this Hb)
    as (_ & _ & Hcs & Harray & Hdv).
  rewrite Hcs, Harray, Hitems, Hdv.
  rewrite evaluate_conditions_static by done. simpl.
  unfold static_outcome. by destruct (_ <$> _).
Qed.

(** X12. [evaluate] trusts the array it iterates: the tests of construction
    are not repeated.  If the array has come to hold [null] or
    [undefined] (it is the caller's array, held by reference), reading
    [check] from it fails outside the [try], and [evaluate] throws that
    TypeError as it is, not the wrapped [Error] of line 85; a boolean,
    number, BigInt or symbol in the array has no [check] and is passed
    over as a condition that does not match. *)
Theorem evaluate_does_not_revalidate
    (h : heap) (process_env : value) (this : loc) (runtimeContext : value)
    (pre : list value) (condition : value) (post : list value) :
  let h2 := context_heap h process_env this runtimeContext in
  let ctx := context_ref h runtimeContext in
  array_items h2 (this_get h2 this "conditions")
    = Some (pre ++ condition :: post) →
  Forall (returns h2 ctx) pre →
  (condition = VNull ∨ condition = VUndefined →
     ∃ msg, (evaluate h process_env this runtimeContext).2
            = Throw (JsTypeError msg))
  ∧ (plain_primitive condition = true →
     Forall (returns h2 ctx) post →
     (evaluate h process_env this runtimeContext).2
     = Normal (outcome_by truthy h2 this ctx (pre ++ post))).
Proof.
  intros h2 ctx Hitems Hpre. split.
  - intros Hnullish. rewrite evaluate_unfold. cbv zeta. fold h2 ctx.
    cbn [snd]. rewrite Hitems.
    destruct Hnullish as [-> | ->]; eexists;
      by erewrite evaluate_conditions_stops.
  - intros Hprimitive Hpost.
    assert (Hvalue : check_value h2 ctx condition = Normal VUndefined)
      by (by destruct condition).
    assert (Hall : Forall (returns h2 ctx) (pre ++ condition :: post)).
    { apply Forall_app. split; [done|]. constructor; [by eexists | done]. }
    rewrite evaluate_unfold. cbv zeta. fold h2 ctx. cbn [snd].
    rewrite Hitems. rewrite evaluate_conditions_returns by done. simpl.
    unfold outcome_by, matching_by.
    assert (Hholds : holds_by truthy h2 ctx condition = false)
      by (unfold holds_by; by rewrite Hvalue).
    rewrite !List.filter_app. simpl. by rewrite Hholds.
Qed.

(** X11. A failure that cannot be reported.  Let a callable check raise, the
    checks before it yielding values.  If what it threw is [null] or
    [undefined], reading [message] from it in the [catch] clause fails;
    if the condition's [name] is a Symbol, the template literal cannot
    convert it.  In both cases [evaluate] throws a TypeError, not the
    [Error] that names the condition. *)
Theorem evaluate_failure_not_reported
    (h : heap) (process_env : value) (this : loc) (runtimeContext : value)
    (pre : list value) (condition : value) (post : list value)
    (check : value) (error : exn) (name : value) :
  let h2 := context_heap h process_env this runtimeContext in
  let ctx := context_ref h runtimeContext in
  array_items h2 (this_get h2 this "conditions")
    = Some (pre ++ condition :: post) →
  Forall (returns h2 ctx) pre →
  get_prop h2 condition "check" = Normal check →
  typeof h2 check = "function" →
  call_function h2 check condition ctx = Throw error →
  get_prop h2 condition "name" = Normal name →
  ((∃ id, name = VSymbol id)
   ∨ (∃ shown_name, ToString h2 name = Normal shown_name)
     ∧ (error = Thrown VNull ∨ error = Thrown VUndefined)) →
  ∃ msg, (evaluate h process_env this runtimeContext).2
         = Throw (JsTypeError msg).
Proof.
  intros h2 ctx Hitems Hpre Hcheck Htype Hcall Hname Hcase.
  assert (∃ msg, condition_result h2 ctx condition = Throw (JsTypeError msg))
    as [msg Hresult].
  { unfold condition_result. rewrite Hcheck. simpl.
    rewrite bool_decide_eq_true_2 by done. rewrite Hcall.
    unfold evaluation_error. rewrite Hname. simpl.
    destruct Hcase as [[id ->] | [[shown ->] [-> | ->]]]; simpl;
      by eexists. }
  exists msg. rewrite evaluate_unfold. cbv zeta. fold h2 ctx. cbn [snd].
  rewrite Hitems. by erewrite evaluate_conditions_stops.
Qed.

End EvaluateOutcomes.

Lemma evaluate_result_shape_witness :
  Forall
    (returns (H := sample_host)
       (context_heap evaluation_store (VRef 8) 5 (VRef 7))
       (context_ref evaluation_store (VRef 7)))
    [VRef 0; VRef 1; VRef 2]
  ∧ [(true, VString "first"); (true, VString "third")] ≠ []
  ∧ (length [(true, VString "first"); (true, VString "third")]
       ≤ length [VRef 0; VRef 1; VRef 2])%nat.
Proof.
  destruct (evaluate_result_shape (H := sample_host)
              evaluation_store (VRef 8) 5 (VRef 7) [VRef 0; VRef 1; VRef 2]
              (Matches [(true, VString "first"); (true, VString "third")])
              ltac:(computed) ltac:(computed))
    as (Hall & Hne & Hle & _).
  split; [exact Hall|]. split; [exact Hne | exact Hle].
Defined.

Lemma static_check_sample :
  Forall (static_check evaluation_store) [VRef 9].
Proof.
  constructor; [|constructor].
  exists (VNumber S754_nan). split; [reflexivity|].
  split; [exact I | discriminate].
Defined.

Lemma static_conditions_ignore_context_witness :
  (evaluate (H := sample_host) evaluation_store (VRef 8) 11 (VRef 7)).2
  = Normal (static_outcome evaluation_store 11 [VRef 9]).
Proof.
  apply (static_conditions_ignore_context (H := sample_host)
           evaluation_store 11 [VRef 9] (VRef 8) (VRef 7)).
  - exists (VRef 10), (VString "fallback"), 12.
    split; [reflexivity|]. split; simpl; lia.
  - computed.
  - accepted_by_computation.
  - exact static_check_sample.
Defined.

Lemma evaluate_does_not_revalidate_witness :
  (∃ msg,
     (evaluate (H := sample_host) altered_store (VRef 17) 2 VUndefined).2
     = Throw (JsTypeError msg))
  ∧ (evaluate (H := sample_host) altered_store (VRef 17) 5 VUndefined).2
    = Normal
        (outcome_by (H := sample_host) truthy
           (context_heap altered_store (VRef 17) 5
              VUndefined)
           5 (context_ref altered_store VUndefined) ([VRef 0] ++ [VRef 0])).
Proof.
  split.
  - exact (proj1 (evaluate_does_not_revalidate (H := sample_host)
                    altered_store (VRef 17) 2 VUndefined [VRef 0] VNull []
                    ltac:(computed) ltac:(returns_by_computation))
             (or_introl eq_refl)).
  - exact (proj2 (evaluate_does_not_revalidate (H := sample_host)
                    altered_store (VRef 17) 5 VUndefined
                    [VRef 0] (VBool true) [VRef 0]
                    ltac:(computed) ltac:(returns_by_computation))
             eq_refl ltac:(returns_by_computation)).
Defined.

Lemma evaluate_failure_not_reported_witness :
  (∃ msg,
     (evaluate (H := sample_host) altered_store (VRef 17) 10 VUndefined).2
     = Throw (JsTypeError msg))
  ∧ (∃ msg,
       (evaluate (H := sample_host) altered_store (VRef 17) 15 VUndefined).2
       = Throw (JsTypeError msg)).
Proof.
  split.
  - exact (evaluate_failure_not_reported (H := sample_host)
             altered_store (VRef 17) 10 VUndefined [VRef 0] (VRef 8) []
             (VRef 7) (Thrown VNull) (VString "n")
             ltac:(computed) ltac:(returns_by_computation)
             ltac:(computed) ltac:(computed) ltac:(computed) ltac:(computed)
             (or_intror (conj (ex_intro _ "n" eq_refl) (or_introl eq_refl)))).
  - exact (evaluate_failure_not_reported (H := sample_host)
             altered_store (VRef 17) 15 VUndefined [] (VRef 13) []
             (VRef 12) (JsError "Test error") (VSymbol 0)
             ltac:(computed) ltac:(constructor)
             ltac:(computed) ltac:(computed) ltac:(computed) ltac:(computed)
             (or_introl (ex_intro _ 0 eq_refl))).
Defined.

(** ** Accumulating context over several calls *)

Lemma record_framed (h after : heap) this record :
  record_beside h this record →
  (∀ l o, l ≠ this → h !! l = Some o → after !! l = Some o) →
  record_beside after this record
  ∧ own_props after record = own_props h record.
Proof.
  intros [Hrec Hne] Hframe. unfold record_beside, is_record, class_of in *.
  destruct record as [| | | | | | |l]; try discriminate.
  destruct (h !! l) as [o|] eqn:Hl; [|discriminate].
  assert (l ≠ this) by congruence.
  unfold own_props. by rewrite Hl, (Hframe l o).
Qed.

Lemma merged_over_ext (h h' : heap) base records :
  Forall (fun record => own_props h' record = own_props h record) records →
  merged_over h' base records = merged_over h base records.
Proof.
  intros Hall. revert base. unfold merged_over.
  induction Hall as [|r rest Hr _ IH]; intros base; simpl; [done|].
  by rewrite Hr, IH.
Qed.

Lemma merged_over_absent (h : heap) base records k :
  Forall (fun record => own_props h record !! k = None) records →
  merged_over h base records !! k = base !! k.
Proof.
  intros Hall. revert base. unfold merged_over.
  induction Hall as [|r rest Hr _ IH]; intros base; simpl; [done|].
  rewrite IH. by apply lookup_union_r.
Qed.

(** What [getContext] returns shows the accumulated context. *)
Lemma getContext_shows `{Host} (h : heap) this :
  (observe h this QGetContext).2 = SeenContext (context_of h this).
Proof.
  simpl. f_equal. apply own_props_object, lookup_alloc.
Qed.

Section Accumulation.
Context `{Host}.

Lemma withContext_sequence (h : heap) this records :
  builder_at h this →
  Forall (record_beside h this) records →
  builder_at (perform_all h this (OpWithContext <$> records)) this
  ∧ context_of (perform_all h this (OpWithContext <$> records)) this
    = merged_over h (context_of h this) records.
Proof.
  revert h. induction records as [|r rest IH]; intros h Hb Hall; [done|].
  apply Forall_cons in Hall as [Hr Hrest].
  destruct (withContext_spec h this r Hb)
    as (_ & Hb' & _ & _ & Hframe & Hctx).
  rewrite (proj1 Hr) in Hctx.
  assert (Hboth : Forall (fun record =>
                     record_beside (withContext h this r).1 this record
                     ∧ own_props (withContext h this r).1 record
                       = own_props h record) rest).
  { eapply Forall_impl; [exact Hrest|].
    intros record Hrecord. by apply record_framed. }
  destruct (IH (withContext h this r).1 Hb') as [Hb2 Hctx2].
  { eapply Forall_impl; [exact Hboth|]. by intros ? [? ?]. }
  change (perform_all h this (OpWithContext <$> r :: rest))
    with (perform_all (withContext h this r).1 this (OpWithContext <$> rest)).
  split; [done|].
  rewrite Hctx2, Hctx.
  change (merged_over h (context_of h this) (r :: rest))
    with (merged_over h (own_props h r ∪ context_of h this) rest).
  apply merged_over_ext.
  eapply Forall_impl; [exact Hboth|]. by intros ? [? ?].
Qed.

(** X6. Any number of [withContext] calls with records, one after the
    other, accumulate: a key reads as in the last record of the sequence
    that has it, and as before the calls if no record has it. *)
Theorem withContext_accumulates
    (h : heap) (this : loc) (records : list value) :
  builder_at h this →
  Forall (record_beside h this) records →
  let after := perform_all h this (OpWithContext <$> records) in
  builder_at after this
  ∧ context_of after this = merged_over h (context_of h this) records
  ∧ (∀ pre record post k v,
       records = pre ++ record :: post →
       own_props h record !! k = Some v →
       Forall (fun later => own_props h later !! k = None) post →
       context_of after this !! k = Some v)
  ∧ (∀ k,
       Forall (fun record => own_props h record !! k = None) records →
       context_of after this !! k = context_of h this !! k).
Proof.
  intros Hb Hall after.
  destruct (withContext_sequence h this records Hb Hall) as [Hb' Hctx].
  fold after in Hb', Hctx.
  split; [done|]. split; [done|]. rewrite Hctx. split.
  - intros pre record post k v -> Hk Hnone.
    unfold merged_over. rewrite foldl_app. simpl.
    fold (merged_over h (context_of h this) pre).
    fold (merged_over h
            (own_props h record ∪ merged_over h (context_of h this) pre)
            post).
    rewrite merged_over_absent by done.
    by apply lookup_union_Some_l.
  - intros k Hnone. by apply merged_over_absent.
Qed.

(** X7. Giving the same record twice is the same as giving it once, and two
    records with no key in common can be given in either order. *)
Theorem withContext_repetition_and_order
    (h : heap) (this : loc) (a b : value) :
  builder_at h this →
  record_beside h this a →
  record_beside h this b →
  let after records := perform_all h this (OpWithContext <$> records) in
  context_of (after [a; a]) this = context_of (after [a]) this
  ∧ (own_props h a ##ₘ own_props h b →
     context_of (after [a; b]) this = context_of (after [b; a]) this).
Proof.
  intros Hb Ha Hb' after. unfold after.
  destruct (withContext_sequence h this [a; a] Hb
              ltac:(repeat (constructor; [assumption|]); constructor))
    as [_ ->].
  destruct (withContext_sequence h this [a] Hb
              ltac:(repeat (constructor; [assumption|]); constructor))
    as [_ ->].
  destruct (withContext_sequence h this [a; b] Hb
              ltac:(repeat (constructor; [assumption|]); constructor))
    as [_ ->].
  destruct (withContext_sequence h this [b; a] Hb
              ltac:(repeat (constructor; [assumption|]); constructor))
    as [_ ->].
  unfold merged_over. simpl. split.
  - by rewrite (assoc_L (∪)), (idemp_L (∪)).
  - intros Hdisjoint.
    rewrite !(assoc_L (∪)). f_equal. symmetry. by apply map_union_comm.
Qed.

(** X8. Reading back.  [getContext] called right after an operation shows
    what the operation left: after [withContext(ctx)] with a record, the
    properties of [ctx] in front of what was accumulated; after
    [resetContext()], nothing; after any other call, what was
    accumulated before. *)
Theorem getContext_reads_back (h : heap) (this : loc) (op : operation) :
  builder_at h this →
  (observe (perform h this op) this QGetContext).2
  = SeenContext
      (match op with
       | OpWithContext ctx =>
           if is_record h ctx then own_props h ctx ∪ context_of h this
           else context_of h this
       | OpResetContext => ∅
       | OpGetContext | OpEvaluate _ _ => context_of h this
       end).
Proof.
  intros Hb. rewrite getContext_shows. f_equal.
  destruct (perform_spec h this op Hb) as (_ & _ & _ & _ & Hstep & _).
  destruct op as [ctx| | |process_env runtimeContext]; try exact Hstep.
  by destruct (withContext_spec h this ctx Hb) as (_ & _ & _ & _ & _ & ?).
Qed.

End Accumulation.

Lemma record_beside_sample :
  record_beside evaluation_store 5 (VRef 7)
  ∧ record_beside evaluation_store 5 (VRef 17).
Proof. split; (split; [reflexivity | discriminate]). Defined.

Lemma withContext_accumulates_witness :
  context_of
    (perform_all (H := sample_host) evaluation_store 5
       (OpWithContext <$> [VRef 17; VRef 7])) 5
  = merged_over evaluation_store (context_of evaluation_store 5)
      [VRef 17; VRef 7]
  ∧ context_of
      (perform_all (H := sample_host) evaluation_store 5
         (OpWithContext <$> [VRef 17; VRef 7])) 5 !! "tier"
    = Some (VString "premium")
  ∧ context_of
      (perform_all (H := sample_host) evaluation_store 5
         (OpWithContext <$> [VRef 17; VRef 7])) 5 !! "env"
    = Some (VString "theirs").
Proof.
  destruct (withContext_accumulates (H := sample_host) evaluation_store 5
              [VRef 17; VRef 7] builder_at_sample
              ltac:(destruct record_beside_sample;
                    repeat (constructor; [assumption|]); constructor))
    as (_ & Hctx & Hlast & _).
  split; [exact Hctx|]. split.
  - exact (Hlast [VRef 17] (VRef 7) [] "tier" (VString "premium")
             eq_refl ltac:(computed) ltac:(constructor)).
  - exact (Hlast [] (VRef 17) [VRef 7] "env" (VString "theirs")
             eq_refl ltac:(computed)
             ltac:(constructor; [computed | constructor])).
Defined.

Lemma withContext_repetition_and_order_witness :
  context_of
    (perform_all (H := sample_host) evaluation_store 5
       (OpWithContext <$> [VRef 7; VRef 7])) 5
  = context_of
      (perform_all (H := sample_host) evaluation_store 5
         (OpWithContext <$> [VRef 7])) 5
  ∧ context_of
      (perform_all (H := sample_host) evaluation_store 5
         (OpWithContext <$> [VRef 7; VRef 17])) 5
    = context_of
        (perform_all (H := sample_host) evaluation_store 5
           (OpWithContext <$> [VRef 17; VRef 7])) 5.
Proof.
  destruct record_beside_sample as [Hpremium Htheirs].
  destruct (withContext_repetition_and_order (H := sample_host)
              evaluation_store 5 (VRef 7) (VRef 17)
              builder_at_sample Hpremium Htheirs) as [Hsame Hswap].
  split; [exact Hsame|]. apply Hswap.
  apply (bool_decide_unpack _). vm_compute. exact I.
Defined.

Lemma getContext_reads_back_witness :
  (observe (H := sample_host)
     (perform (H := sample_host) evaluation_store 5 (OpWithContext (VRef 7)))
     5 QGetContext).2
  = SeenContext
      (if is_record evaluation_store (VRef 7)
       then own_props evaluation_store (VRef 7)
              ∪ context_of evaluation_store 5
       else context_of evaluation_store 5).
Proof.
  exact (getContext_reads_back (H := sample_host) evaluation_store 5
           (OpWithContext (VRef 7)) builder_at_sample).
Defined.

Lemma definition_fixed_after_construction_witness :
  this_get
    (perform_all (H := sample_host) evaluation_store 5
       [OpWithContext (VRef 7); OpResetContext;
        OpEvaluate (VRef 8) (VRef 17); OpGetContext]) 5 "conditions"
  = this_get evaluation_store 5 "conditions"
  ∧ array_items
      (perform_all (H := sample_host) evaluation_store 5
         [OpWithContext (VRef 7); OpResetContext;
          OpEvaluate (VRef 8) (VRef 17); OpGetContext])
      (this_get
         (perform_all (H := sample_host) evaluation_store 5
            [OpWithContext (VRef 7); OpResetContext;
             OpEvaluate (VRef 8) (VRef 17); OpGetContext]) 5 "conditions")
    = Some [VRef 0; VRef 1; VRef 2].
Proof.
  destruct (definition_fixed_after_construction (H := sample_host)
              evaluation_store 5 [VRef 0; VRef 1; VRef 2]
              [OpWithContext (VRef 7); OpResetContext;
               OpEvaluate (VRef 8) (VRef 17); OpGetContext]
              builder_at_sample ltac:(computed)
              ltac:(accepted_by_computation))
    as (_ & Hcs & _ & Harray & _).
  split; [exact Hcs | exact Harray].
Defined.

(** ** Evaluation: failures, empty lists, and runtime contexts without
    properties *)

Section EvaluateEdges.
Context `{Host}.

Lemma evaluate_conditions_throw_inv h ctx conditions matches e :
  evaluate_conditions h ctx conditions matches = Throw e →
  ∃ pre condition post,
    conditions = pre ++ condition :: post
    ∧ Forall (returns h ctx) pre
    ∧ condition_result h ctx condition = Throw e.
Proof.
  revert matches.
  induction conditions as [|c rest IH]; intros matches; simpl; [done|].
  destruct (condition_result h ctx c) as [b|e'] eqn:Hresult; simpl.
  - destruct (condition_result_inv _ _ _ _ Hresult) as (v & Hv & _).
    destruct (condition_result_value _ _ _ _ Hv) as [_ Hname].
    intros Hrest.
    assert (∃ matches',
              evaluate_conditions h ctx rest matches' = Throw e)
      as [matches' Hrest'].
    { destruct b; [|by eexists].
      rewrite Hname in Hrest. simpl in Hrest. by eexists. }
    destruct (IH _ Hrest') as (pre & condition & post & -> & Hpre & Hfail).
    exists (c :: pre), condition, post.
    split; [done|]. split; [|done]. constructor; [by exists v | done].
  - intros [= ->]. by exists [], c, rest.
Qed.

(** X10. When [evaluate] throws, it is because of one condition, the first
    whose check does not yield a value, the checks before it having
    yielded theirs.  Either that element is [null] or [undefined] and the
    error is the TypeError of reading [check] from it; or its [check] is
    a function that raised, and the error is what the [catch] clause of
    lines 84-88 throws for it.  In particular a builder whose conditions
    are objects throws from [evaluate] only when a predicate raises. *)
Theorem evaluate_throws_only_for_failing_check
    (h : heap) (process_env : value) (this : loc) (runtimeContext : value)
    (conditions : list value) (e : exn) :
  let h2 := context_heap h process_env this runtimeContext in
  let ctx := context_ref h runtimeContext in
  array_items h2 (this_get h2 this "conditions") = Some conditions →
  (evaluate h process_env this runtimeContext).2 = Throw e →
  ∃ pre condition post,
    conditions = pre ++ condition :: post
    ∧ Forall (returns h2 ctx) pre
    ∧ ((condition = VNull ∨ condition = VUndefined)
       ∧ get_prop h2 condition "check" = Throw e
       ∨ ∃ check error,
           get_prop h2 condition "check" = Normal check
           ∧ typeof h2 check = "function"
           ∧ call_function h2 check condition ctx = Throw error
           ∧ evaluation_error h2 condition error = Throw e).
Proof.
  intros h2 ctx Hitems. rewrite evaluate_unfold. cbv zeta. fold h2 ctx.
  cbn [snd]. rewrite Hitems.
  destruct (evaluate_conditions h2 ctx conditions []) as [ms|e'] eqn:Hloop;
    simpl; [done|].
  intros [= ->].
  destruct (evaluate_conditions_throw_inv _ _ _ _ _ Hloop)
    as (pre & condition & post & -> & Hpre & Hfail).
  exists pre, condition, post. split; [done|]. split; [done|].
  revert Hfail. unfold condition_result.
  destruct (get_prop h2 condition "check") as [check|e'] eqn:Hcheck; simpl.
  - destruct (bool_decide (typeof h2 check = "function")) eqn:Htype;
      [|done].
    apply bool_decide_eq_true_1 in Htype.
    destruct (call_function h2 check condition ctx) as [v|error] eqn:Hcall;
      [done|].
    intros Hreport. right. by exists check, error.
  - intros [= ->]. left. split; [|done].
    destruct condition; simpl in Hcheck; try discriminate; auto.
Qed.

(** A conditions argument that is left out is a new empty array. *)
Lemma omitted_conditions_are_empty (h : heap) defaultValue :
  array_items (entry_heap h VUndefined defaultValue)
    (conditions_param h VUndefined) = Some [].
Proof.
  unfold entry_heap, conditions_param. cbn [default_param alloc fst snd].
  destruct (default_param_extends (h ++ [empty_array]) defaultValue
              empty_array) as [added ->].
  rewrite array_items_extend by (simpl; rewrite length_app; simpl; lia).
  unfold array_items, class_of. by rewrite lookup_alloc.
Qed.

(** X14. A builder without conditions, whether the list was left out or
    given as an empty array: construction succeeds, and [evaluate] returns the
    default value for every environment and every runtime context. *)
Theorem no_conditions_gives_default
    (h : heap) (conditions defaultValue : value)
    (process_env runtimeContext : value) :
  let h1 := entry_heap h conditions defaultValue in
  let built := createEnvironmentNameBuilder h conditions defaultValue in
  conditions = VUndefined
    ∨ array_items h1 (conditions_param h conditions) = Some [] →
  ∃ this,
    built.2 = Normal (VRef this)
    ∧ (evaluate built.1 process_env this runtimeContext).2
      = Normal (Fallback (defaultValue_param h conditions defaultValue)).
Proof.
  intros h1 built Hgiven.
  assert (Hitems : array_items h1 (conditions_param h conditions) = Some []).
  { destruct Hgiven as [-> | Hitems]; [|done].
    apply omitted_conditions_are_empty. }
  assert (Hbuilt : built
            = ((h1 ++ [empty_object])
                 ++ [builder_object (conditions_param h conditions)
                       (defaultValue_param h conditions defaultValue)
                       (VRef (length h1))],
               Normal (VRef (length (h1 ++ [empty_object]))))).
  { unfold built. rewrite createEnvironmentNameBuilder_unfold. cbv zeta.
    fold h1. by rewrite Hitems. }
  exists (length (h1 ++ [empty_object])). split; [by rewrite Hbuilt|].
  destruct (construction_gives_builder _ _ _ _ _ Hbuilt) as (Hb & _).
  destruct (builder_object_fields h1 (conditions_param h conditions)
              (defaultValue_param h conditions defaultValue))
    as (_ & Hcs & Hdv).
  cbv zeta in Hcs, Hdv. rewrite Hbuilt in *. cbn [fst].
  set (h' := (h1 ++ [empty_object]) ++ _) in *.
  set (this := length (h1 ++ [empty_object])) in *.
  assert (Hempty : array_items h' (this_get h' this "conditions") = Some []).
  { rewrite Hcs. unfold h'. rewrite <- app_assoc.
    rewrite array_items_extend; [done|].
    unfold array_items, class_of in Hitems.
    destruct (conditions_param h conditions) as [| | | | | | |a];
      try discriminate.
    destruct (h1 !! a) eqn:Ha; [|discriminate].
    simpl. by eapply lookup_lt_Some. }
  rewrite evaluate_unfold. cbv zeta. cbn [snd].
  destruct (context_heap_extends h' process_env this runtimeContext)
    as [added ->].
  destruct (builder_view_extend h' added this Hb)
    as (_ & _ & Hcs' & Harray & Hdv').
  by rewrite Hcs', Harray, Hempty, Hdv', Hdv.
Qed.

(** X15. A runtime context that has no properties to contribute ([null], an
    argument left out, a boolean, a number, a BigInt, a symbol) is
    accepted as it is: the context object handed to the predicates then
    holds the accumulated context over [env], nothing more. *)
Theorem runtime_context_without_properties
    (h : heap) (process_env : value) (this : loc) (runtimeContext : value) :
  builder_at h this →
  runtimeContext = VNull ∨ runtimeContext = VUndefined
    ∨ plain_primitive runtimeContext = true →
  own_props (evaluate h process_env this runtimeContext).1
    (context_ref h runtimeContext)
  = context_of h this ∪ {["env" := process_env]}.
Proof.
  intros Hb Hkind. rewrite context_object_props. unfold effective_context.
  destruct (decide (runtimeContext = VUndefined)) as [->|Hdef].
  - unfold evaluate_heap, runtime_param. cbn [default_param alloc fst snd].
    rewrite (own_props_object _ _ ∅) by apply lookup_alloc.
    destruct (builder_view_extend h [empty_object] this Hb) as (_ & -> & _).
    by rewrite (left_id_L ∅ (∪)).
  - assert (Hparam : default_param h runtimeContext empty_object
                     = (h, runtimeContext)) by (by destruct runtimeContext).
    unfold evaluate_heap, runtime_param. rewrite Hparam. cbn [fst snd].
    assert (Hnone : own_props h runtimeContext = ∅).
    { destruct Hkind as [-> | [-> | Hprimitive]]; try done.
      by destruct runtimeContext. }
    by rewrite Hnone, (left_id_L ∅ (∪)).
Qed.

End EvaluateEdges.

Lemma evaluate_throws_only_for_failing_check_witness :
  ∃ pre condition post,
    [VRef 0; VRef 13; VRef 1] = pre ++ condition :: post
    ∧ Forall
        (returns (H := sample_host)
           (context_heap evaluation_store (VRef 8) 16 (VRef 7))
           (context_ref evaluation_store (VRef 7))) pre
    ∧ ((condition = VNull ∨ condition = VUndefined)
       ∧ get_prop (context_heap evaluation_store (VRef 8) 16 (VRef 7))
           condition "check"
         = Throw (JsError "Error evaluating condition 'boom': Test error")
       ∨ ∃ check error,
           get_prop (context_heap evaluation_store (VRef 8) 16 (VRef 7))
             condition "check" = Normal check
           ∧ typeof (context_heap evaluation_store (VRef 8) 16 (VRef 7))
               check = "function"
           ∧ call_function (H := sample_host)
               (context_heap evaluation_store (VRef 8) 16 (VRef 7))
               check condition (context_ref evaluation_store (VRef 7))
             = Throw error
           ∧ evaluation_error (H := sample_host)
               (context_heap evaluation_store (VRef 8) 16 (VRef 7))
               condition error
             = Throw (JsError
                        "Error evaluating condition 'boom': Test error")).
Proof.
  exact (evaluate_throws_only_for_failing_check (H := sample_host)
           evaluation_store (VRef 8) 16 (VRef 7) [VRef 0; VRef 13; VRef 1]
           (JsError "Error evaluating condition 'boom': Test error")
           ltac:(computed) ltac:(computed)).
Defined.

Lemma no_conditions_gives_default_witness :
  ∃ this,
    (createEnvironmentNameBuilder scenario_store (VRef 3) (VRef 4)).2
    = Normal (VRef this)
    ∧ (evaluate (H := sample_host)
         (createEnvironmentNameBuilder scenario_store (VRef 3) (VRef 4)).1
         (VRef 18) this (VRef 9)).2
      = Normal (Fallback (defaultValue_param scenario_store (VRef 3) (VRef 4))).
Proof.
  exact (no_conditions_gives_default (H := sample_host) scenario_store
           (VRef 3) (VRef 4) (VRef 18) (VRef 9)
           ltac:(right; computed)).
Defined.

Lemma runtime_context_without_properties_witness :
  own_props (evaluate (H := sample_host) evaluation_store (VRef 8) 5 VNull).1
    (context_ref evaluation_store VNull)
  = context_of evaluation_store 5 ∪ {["env" := VRef 8]}.
Proof.
  exact (runtime_context_without_properties (H := sample_host)
           evaluation_store (VRef 8) 5 VNull builder_at_sample
           (or_introl eq_refl)).
Defined.

Lemma environment_variable_is_not_a_key_witness :
  own_props
    (evaluate (H := sample_host) evaluation_store (VRef 8) 5 (VRef 7)).1
    (context_ref evaluation_store (VRef 7)) !! "NODE_ENV" = None.
Proof.
  exact (environment_variable_is_not_a_key (H := sample_host)
           evaluation_store (VRef 8) 5 (VRef 7) "NODE_ENV"
           ltac:(discriminate) ltac:(computed) ltac:(computed)).
Defined.

(** ** Calls in a row *)

Section Chains.
Context `{Host}.

Lemma perform_all_builder_at (h : heap) this ops :
  builder_at h this → builder_at (perform_all h this ops) this.
Proof.
  revert h. induction ops as [|op ops IH]; intros h Hb; [done|].
  apply (IH (perform h this op)).
  by destruct (perform_spec h this op Hb) as (? & _).
Qed.

(** X17. [construct(...).withContext(record).evaluate(runtimeContext)]: the
    context object handed to the predicates holds the properties of the
    runtime context, in front of those of [record], in front of [env];
    nothing else is in it. *)
Theorem chained_call_context
    (h : heap) (conditions defaultValue : value) (h' : heap) (this : loc)
    (record process_env runtimeContext : value) :
  createEnvironmentNameBuilder h conditions defaultValue
    = (h', Normal (VRef this)) →
  is_record h' record = true →
  let merged := (withContext h' this record).1 in
  (withContext h' this record).2 = Normal (VRef this)
  ∧ own_props (evaluate merged process_env this runtimeContext).1
      (context_ref merged runtimeContext)
    = own_props (evaluate_heap merged runtimeContext)
        (runtime_param merged runtimeContext)
        ∪ (own_props h' record ∪ {["env" := process_env]}).
Proof.
  intros Hbuilt Hrecord merged.
  destruct (construction_gives_builder _ _ _ _ _ Hbuilt) as (Hb & Hempty & _).
  destruct (withContext_spec h' this record Hb)
    as (Hret & Hb' & _ & _ & _ & Hctx).
  fold merged in Hb', Hctx. rewrite Hrecord, Hempty in Hctx.
  split; [done|].
  rewrite context_object_props. unfold effective_context. f_equal.
  destruct (default_param_extends merged runtimeContext empty_object)
    as [added Hadded].
  unfold evaluate_heap. rewrite Hadded.
  destruct (builder_view_extend merged added this Hb') as (_ & -> & _).
  by rewrite Hctx, (right_id_L ∅ (∪)).
Qed.

(** X18. [resetContext] forgets what came before it: whatever operations
    were performed up to a [resetContext()], the accumulated context
    after further [withContext] calls is the one these calls alone build
    up from nothing. *)
Theorem resetContext_forgets_history
    (h : heap) (this : loc) (ops : list operation) (records : list value) :
  builder_at h this →
  let cleared := perform_all h this (ops ++ [OpResetContext]) in
  Forall (record_beside cleared this) records →
  context_of cleared this = ∅
  ∧ context_of (perform_all cleared this (OpWithContext <$> records)) this
    = merged_over cleared ∅ records.
Proof.
  intros Hb cleared Hrecords.
  assert (Hcleared : cleared
            = perform (perform_all h this ops) this OpResetContext).
  { unfold cleared, perform_all. by rewrite foldl_app. }
  pose proof (perform_all_builder_at h this ops Hb) as Hb1.
  destruct (perform_spec _ this OpResetContext Hb1)
    as (Hb2 & _ & _ & _ & Hstep & _).
  rewrite <- Hcleared in Hb2, Hstep. simpl in Hstep.
  split; [done|].
  destruct (withContext_sequence cleared this records Hb2 Hrecords)
    as [_ ->].
  by rewrite Hstep.
Qed.

End Chains.

Lemma chained_call_context_witness :
  (withContext
     (createEnvironmentNameBuilder scenario_store (VRef 7) (VRef 4)).1 20
     (VRef 8)).2 = Normal (VRef 20)
  ∧ own_props
      (evaluate (H := sample_host)
         (withContext
            (createEnvironmentNameBuilder scenario_store (VRef 7) (VRef 4)).1
            20 (VRef 8)).1
         (VRef 18) 20 (VRef 9)).1
      (context_ref
         (withContext
            (createEnvironmentNameBuilder scenario_store (VRef 7) (VRef 4)).1
            20 (VRef 8)).1
         (VRef 9))
    = own_props
        (evaluate_heap
           (withContext
              (createEnvironmentNameBuilder scenario_store
                 (VRef 7) (VRef 4)).1
              20 (VRef 8)).1
           (VRef 9))
        (runtime_param
           (withContext
              (createEnvironmentNameBuilder scenario_store
                 (VRef 7) (VRef 4)).1
              20 (VRef 8)).1
           (VRef 9))
        ∪ (own_props
             (createEnvironmentNameBuilder scenario_store (VRef 7) (VRef 4)).1
             (VRef 8)
             ∪ {["env" := VRef 18]}).
Proof.
  exact (chained_call_context (H := sample_host) scenario_store
           (VRef 7) (VRef 4) _ 20 (VRef 8) (VRef 18) (VRef 9)
           ltac:(computed) ltac:(computed)).
Defined.

Lemma resetContext_forgets_history_witness :
  context_of
    (perform_all (H := sample_host) evaluation_store 5
       ([OpWithContext (VRef 17)] ++ [OpResetContext])) 5 = ∅
  ∧ context_of
      (perform_all (H := sample_host)
         (perform_all (H := sample_host) evaluation_store 5
            ([OpWithContext (VRef 17)] ++ [OpResetContext]))
         5 (OpWithContext <$> [VRef 7])) 5
    = merged_over
        (perform_all (H := sample_host) evaluation_store 5
           ([OpWithContext (VRef 17)] ++ [OpResetContext]))
        ∅ [VRef 7].
Proof.
  exact (resetContext_forgets_history (H := sample_host) evaluation_store 5
           [OpWithContext (VRef 17)] [VRef 7] builder_at_sample
           ltac:(constructor;
                 [split; [computed | discriminate] | constructor])).
Defined.
